(** * Duocmatico: the calendar store module and the route table

    A shallow embedding of [src/store/calendars.js] (a Vuex module: state,
    mutations, actions, getters) and of the router's route table, with the
    properties the specification states about them.

    Layout:
    - [Js]      the fragment of JavaScript data the store handles: JSON
                values and NaN, objects with ordered properties, truthiness,
                [===], [Array.prototype.splice], [findIndex], template
                strings;
    - [Json]    [JSON.stringify] and [JSON.parse] on that data; [parse]
                says of a text that it is a value, that it is not JSON, or
                that it goes beyond the numbers and strings of [Js];
    - the store: state, [mutations], [getters], and the [actions] as state
                passing over a world (store, root state, local storage,
                issued requests, generated uuids, console);
    - [Router]  the route table and the matching of a path against it;
    - the theorems, in the same order;
    - further properties of the mutations, the actions and the route table.

    An asynchronous action is modelled by its run from dispatch to the
    settling of its promise, with no other action in between.  A
    [dispatch] that the source does not await runs at once and to its end,
    since the actions dispatched that way contain no [await].

    The actions [saveSharedCalendarToAPI], [saveAndDuplicateSharedCalendar],
    [addSection] and [removeSection] and the mutation [addSection] are left
    out.  The first two throw [Error] objects and call [alert]; the section
    editor mutates the selected calendar in place, which is one object with
    an entry of the local list, and the values of this model have no
    identity to share. *)

From Stdlib Require Import ZArith Ascii String List Bool Lia.
From Stdlib Require Import Decimal DecimalFacts DecimalPos DecimalN DecimalZ DecimalString.
From stdpp Require Import base option list strings gmap.

Local Open Scope string_scope.
Local Open Scope list_scope.

(* ===================================================================== *)
(** * JavaScript data *)
(* ===================================================================== *)

Module Js.

(** The values a calendar is made of: what [JSON.parse] and an API response
    deliver, what the object literals of the module build, and [NaN], a
    number that JSON has no text for.  The other numbers are the integers;
    fractions, the infinities and the negative zero are not members.  A
    string is a sequence of characters with codes below 256.  [undefined] is
    not a member: it only appears as the result of reading a property that
    is absent, see [jsval]. *)
Unset Elimination Schemes.
Inductive value : Type :=
| JNull
| JBool (b : bool)
| JNum (n : Z)
| JNaN
| JStr (s : string)
| JArr (l : list value)
| JObj (m : list (string * value)).
Set Elimination Schemes.

(** An object is the list of its properties in property order, which is
    the order of their creation.  (JavaScript moves the properties named
    by an array index in front of the others; that is not modelled.) *)
Definition object : Type := list (string * value).

(** A JavaScript expression's result: [None] is [undefined]. *)
Definition jsval : Type := option value.

Definition undefined : jsval := None.

(** Induction over values, with the elements of arrays and the property
    values of objects as induction hypotheses. *)
Definition value_ind (P : value -> Prop)
    (fnull : P JNull)
    (fbool : forall b, P (JBool b))
    (fnum : forall n, P (JNum n))
    (fnan : P JNaN)
    (fstr : forall s, P (JStr s))
    (farr : forall l, Forall P l -> P (JArr l))
    (fobj : forall m, Forall (fun kv => P (snd kv)) m -> P (JObj m)) :
    forall v, P v :=
  fix go (v : value) : P v :=
    match v with
    | JNull => fnull
    | JBool b => fbool b
    | JNum n => fnum n
    | JNaN => fnan
    | JStr s => fstr s
    | JArr l =>
        farr l ((fix elems (l : list value) : Forall P l :=
                   match l with
                   | [] => List.Forall_nil P
                   | x :: xs => List.Forall_cons P x xs (go x) (elems xs)
                   end) l)
    | JObj m =>
        fobj m ((fix props (m : list (string * value))
                   : Forall (fun kv => P (snd kv)) m :=
                   match m with
                   | [] => List.Forall_nil _
                   | kv :: kvs =>
                       List.Forall_cons (fun kv => P (snd kv)) kv kvs
                                        (go (snd kv)) (props kvs)
                   end) m)
    end.

(** ** Properties *)

Definition keys (o : object) : list string := map fst o.

(** [o[k]]: the value of property [k], [undefined] when [o] has none. *)
Fixpoint get_prop (o : object) (k : string) : jsval :=
  match o with
  | [] => None
  | (k', v) :: rest => if String.eqb k' k then Some v else get_prop rest k
  end.

Definition has_prop (o : object) (k : string) : bool :=
  match get_prop o k with Some _ => true | None => false end.

(** [o[k] = v]: an existing property keeps its place and takes the new
    value, a new property goes last. *)
Fixpoint set_prop (k : string) (v : value) (o : object) : object :=
  match o with
  | [] => [(k, v)]
  | (k', v') :: rest =>
      if String.eqb k' k then (k, v) :: rest
      else (k', v') :: set_prop k v rest
  end.

(** [{ ...base, ...src }]: the properties of [src] are assigned to [base]
    in order. *)
Definition assign (base src : object) : object :=
  fold_left (fun acc kv => set_prop (fst kv) (snd kv) acc) src base.

(** The properties of a JavaScript object have distinct names. *)
Definition distinct_keys (o : object) : Prop := NoDup (keys o).

(** ** Truthiness and strict equality *)

(** [ToBoolean]. *)
Definition truthy (v : jsval) : bool :=
  match v with
  | None => false
  | Some JNull => false
  | Some (JBool b) => b
  | Some (JNum n) => negb (Z.eqb n 0)
  | Some JNaN => false
  | Some (JStr s) => negb (String.eqb s "")
  | Some (JArr _) => true
  | Some (JObj _) => true
  end.

(** [a === b].  Primitives compare by value, and [NaN] is not [===] to
    anything, itself included.  Arrays and objects compare by identity;
    every array or object in this model is a separate one, so two of them
    are never [===]. *)
Definition strict_eq (a b : jsval) : bool :=
  match a, b with
  | None, None => true
  | Some JNull, Some JNull => true
  | Some (JBool x), Some (JBool y) => Bool.eqb x y
  | Some (JNum x), Some (JNum y) => Z.eqb x y
  | Some (JStr x), Some (JStr y) => String.eqb x y
  | _, _ => false
  end.

(** ** Arrays *)

(** [l.findIndex(p)]: the first index whose element satisfies [p], or -1. *)
Fixpoint findIndex_from {A} (p : A -> bool) (l : list A) (i : Z) : Z :=
  match l with
  | [] => (-1)%Z
  | x :: xs => if p x then i else findIndex_from p xs (i + 1)%Z
  end.

Definition findIndex {A} (p : A -> bool) (l : list A) : Z :=
  findIndex_from p l 0%Z.

(** [l.find(p)]: the first element that satisfies [p], or [undefined]. *)
Fixpoint find_first {A} (p : A -> bool) (l : list A) : option A :=
  match l with
  | [] => None
  | x :: xs => if p x then Some x else find_first p xs
  end.

(** [l.splice(start, deleteCount, ...items)], the array afterwards.
    A negative [start] counts from the end and is clamped at 0, a [start]
    beyond the end is clamped at the length; [deleteCount] is clamped
    between 0 and what is left after [start]. *)
Definition splice {A} (start deleteCount : Z) (items l : list A) : list A :=
  let len := Z.of_nat (length l) in
  let actualStart :=
    if (start <? 0)%Z then Z.max (len + start) 0 else Z.min start len in
  let actualDeleteCount :=
    Z.min (Z.max deleteCount 0) (len - actualStart) in
  take (Z.to_nat actualStart) l ++ items
    ++ drop (Z.to_nat (actualStart + actualDeleteCount)) l.

(** ** Conversion to string, as in a template literal *)

Definition string_of_Z (n : Z) : string :=
  NilEmpty.string_of_int (Z.to_int n).

Definition string_of_nat (n : nat) : string := string_of_Z (Z.of_nat n).

Fixpoint join (sep : string) (l : list string) : string :=
  match l with
  | [] => ""
  | [x] => x
  | x :: xs => x +:+ sep +:+ join sep xs
  end.

(** [`${v}`]. *)
Fixpoint to_string (v : value) : string :=
  match v with
  | JNull => "null"
  | JBool true => "true"
  | JBool false => "false"
  | JNum n => string_of_Z n
  | JNaN => "NaN"
  | JStr s => s
  | JArr l =>
      join "," (map (fun x => match x with JNull => "" | _ => to_string x end) l)
  | JObj _ => "[object Object]"
  end.

Definition template (v : jsval) : string :=
  match v with None => "undefined" | Some x => to_string x end.

(** [{ ...v }] for an arbitrary value: the own enumerable properties.  An
    object gives its properties, an array its elements under their indices,
    a string its characters under their indices; the other primitives have
    none. *)
Fixpoint indexed {A} (f : A -> value) (l : list A) (i : nat) : object :=
  match l with
  | [] => []
  | x :: xs => (string_of_nat i, f x) :: indexed f xs (S i)
  end.

Definition own_properties (v : jsval) : object :=
  match v with
  | Some (JObj m) => m
  | Some (JArr l) => indexed id l 0
  | Some (JStr s) =>
      indexed (fun c => JStr (String c EmptyString)) (list_ascii_of_string s) 0
  | _ => []
  end.

End Js.
Export Js.

(* ===================================================================== *)
(** * JSON text *)
(* ===================================================================== *)

Module Json.

Definition dquote : ascii := "034"%char.
Definition backslash : ascii := "\"%char.

(** ** [JSON.stringify] *)

Definition hex_digit (n : N) : ascii :=
  ascii_of_N (if (n <? 10)%N then 48 + n else 87 + n).

(** One character inside a JSON string: the quote and the backslash are
    escaped, the control characters get their short escape or a
    [\u00xx] escape, everything else is written as it is. *)
Definition escape_char (c : ascii) : string :=
  let n := N_of_ascii c in
  if Ascii.eqb c dquote then String backslash (String dquote "")
  else if Ascii.eqb c backslash then String backslash (String backslash "")
  else if (n =? 8)%N then "\b"
  else if (n =? 12)%N then "\f"
  else if (n =? 10)%N then "\n"
  else if (n =? 13)%N then "\r"
  else if (n =? 9)%N then "\t"
  else if (n <? 32)%N then
    "\u00" +:+ String (hex_digit (n / 16)) (String (hex_digit (n mod 16)) "")
  else String c "".

Fixpoint escape (s : string) : string :=
  match s with
  | EmptyString => ""
  | String c r => escape_char c +:+ escape r
  end.

Definition quote (s : string) : string :=
  String dquote (escape s +:+ String dquote "").

Definition member (stringify : value -> string) (kv : string * value) : string :=
  quote (fst kv) +:+ ":" +:+ stringify (snd kv).

(** [JSON.stringify(v)], without indentation.  A number that is not finite
    is written as [null]. *)
Fixpoint stringify (v : value) : string :=
  match v with
  | JNull => "null"
  | JBool true => "true"
  | JBool false => "false"
  | JNum n => string_of_Z n
  | JNaN => "null"
  | JStr s => quote s
  | JArr l => "[" +:+ join "," (map stringify l) +:+ "]"
  | JObj m => "{" +:+ join "," (map (member stringify) m) +:+ "}"
  end.

(** ** [JSON.parse] *)

(** What reading a text gives: what was read; the verdict that the text is
    not JSON, where [JSON.parse] throws a [SyntaxError]; or no verdict, for
    a text that goes beyond this model: a number with a fraction or an
    exponent, an integer outside the range in which the numbers of
    JavaScript are exact, a negative zero, a [\u] escape above [00ff], or
    values nested deeper than the fuel reaches. *)
Inductive reading (A : Type) : Type :=
| Parsed (a : A)
| Malformed
| Unsupported.
Arguments Parsed {A} a.
Arguments Malformed {A}.
Arguments Unsupported {A}.

Definition and_then {A B} (r : reading A) (k : A -> reading B) : reading B :=
  match r with
  | Parsed a => k a
  | Malformed => Malformed
  | Unsupported => Unsupported
  end.

Definition is_ws (c : ascii) : bool :=
  Ascii.eqb c " " || Ascii.eqb c "009" || Ascii.eqb c "010" || Ascii.eqb c "013".

Fixpoint skip_ws (s : string) : string :=
  match s with
  | String c r => if is_ws c then skip_ws r else s
  | EmptyString => s
  end.

Fixpoint strip_prefix (p s : string) : option string :=
  match p with
  | EmptyString => Some s
  | String c p' =>
      match s with
      | String d s' => if Ascii.eqb c d then strip_prefix p' s' else None
      | EmptyString => None
      end
  end.

Definition hex_value (c : ascii) : option N :=
  let n := N_of_ascii c in
  if (48 <=? n)%N && (n <=? 57)%N then Some (n - 48)%N
  else if (97 <=? n)%N && (n <=? 102)%N then Some (n - 87)%N
  else if (65 <=? n)%N && (n <=? 70)%N then Some (n - 55)%N
  else None.

(** The character a [\uXXXX] escape stands for.  Four hexadecimal digits
    are required; a code above 255 is a character the strings of this model
    do not have. *)
Definition unicode_escape (h1 h2 h3 h4 : ascii) : reading ascii :=
  match hex_value h1, hex_value h2, hex_value h3, hex_value h4 with
  | Some a, Some b, Some c, Some d =>
      let code := (((a * 16 + b) * 16 + c) * 16 + d)%N in
      if (code <? 256)%N then Parsed (ascii_of_N code) else Unsupported
  | _, _, _, _ => Malformed
  end.

(** The character a one-letter escape stands for. *)
Definition simple_escape (e : ascii) : option ascii :=
  if Ascii.eqb e dquote then Some dquote
  else if Ascii.eqb e backslash then Some backslash
  else if Ascii.eqb e "/" then Some "/"%char
  else if Ascii.eqb e "b" then Some "008"%char
  else if Ascii.eqb e "f" then Some "012"%char
  else if Ascii.eqb e "n" then Some "010"%char
  else if Ascii.eqb e "r" then Some "013"%char
  else if Ascii.eqb e "t" then Some "009"%char
  else None.

Definition cons_char (c : ascii) (r : reading (string * string))
  : reading (string * string) :=
  and_then r (fun '(s, rest) => Parsed (String c s, rest)).

(** The characters of a string after its opening quote, up to and
    including the closing quote; what follows is returned with them. *)
Fixpoint parse_string_body (s : string) : reading (string * string) :=
  match s with
  | EmptyString => Malformed
  | String c r =>
      if Ascii.eqb c dquote then Parsed ("", r)
      else if Ascii.eqb c backslash then
        match r with
        | String e r1 =>
            if Ascii.eqb e "u" then
              match r1 with
              | String h1 (String h2 (String h3 (String h4 r2))) =>
                  and_then (unicode_escape h1 h2 h3 h4)
                           (fun a => cons_char a (parse_string_body r2))
              | _ => Malformed
              end
            else
              match simple_escape e with
              | Some a => cons_char a (parse_string_body r1)
              | None => Malformed
              end
        | EmptyString => Malformed
        end
      else if (N_of_ascii c <? 32)%N then Malformed
      else cons_char c (parse_string_body r)
  end.

Definition digit_of (c : ascii) : option (uint -> uint) :=
  if Ascii.eqb c "0" then Some D0 else if Ascii.eqb c "1" then Some D1
  else if Ascii.eqb c "2" then Some D2 else if Ascii.eqb c "3" then Some D3
  else if Ascii.eqb c "4" then Some D4 else if Ascii.eqb c "5" then Some D5
  else if Ascii.eqb c "6" then Some D6 else if Ascii.eqb c "7" then Some D7
  else if Ascii.eqb c "8" then Some D8 else if Ascii.eqb c "9" then Some D9
  else None.

(** The longest run of digits at the front of [s]. *)
Fixpoint parse_digits (s : string) : uint * string :=
  match s with
  | EmptyString => (Nil, s)
  | String c r =>
      match digit_of c with
      | Some d => let (u, r') := parse_digits r in (d u, r')
      | None => (Nil, s)
      end
  end.

(** The digits of an integer are followed by a fraction or an exponent. *)
Definition continues_number (s : string) : bool :=
  match s with
  | String c _ => Ascii.eqb c "." || Ascii.eqb c "e" || Ascii.eqb c "E"
  | EmptyString => false
  end.

(** [Number.MAX_SAFE_INTEGER]: up to it, in both directions, every integer
    is a number of JavaScript and is written with all its digits. *)
Definition max_safe_integer : Z := 9007199254740991.

Definition safe_integer (n : Z) : bool := (Z.abs n <=? max_safe_integer)%Z.

(** A JSON number: an optional minus sign and digits, with no leading zero.
    Without digits, or with a zero in front of other digits, the text is
    not JSON.  What goes on with a fraction or an exponent, a negative
    zero, and an integer that is not safe are left without a verdict. *)
Definition parse_number (s : string) : reading (value * string) :=
  let (negative, s1) :=
    match s with
    | String c r => if Ascii.eqb c "-" then (true, r) else (false, s)
    | EmptyString => (false, s)
    end in
  let (u, rest) := parse_digits s1 in
  match u with
  | Nil => Malformed
  | D0 (D0 _ | D1 _ | D2 _ | D3 _ | D4 _ | D5 _ | D6 _ | D7 _ | D8 _ | D9 _) =>
      Malformed
  | _ =>
      let n := Z.of_int (if negative then Neg u else Pos u) in
      if continues_number rest then Unsupported
      else if negative && (n =? 0)%Z then Unsupported
      else if safe_integer n then Parsed (JNum n, rest)
      else Unsupported
  end.

Definition literal (word : string) (v : value) (s : string)
  : reading (value * string) :=
  match strip_prefix word s with
  | Some rest => Parsed (v, rest)
  | None => Malformed
  end.

(** What follows the members of an array or an object: a comma and more of
    them, read by [more], or the closing bracket. *)
Definition after_member {A} (close : ascii) (x : A) (s : string)
    (more : string -> reading (list A * string)) : reading (list A * string) :=
  match skip_ws s with
  | EmptyString => Malformed
  | String c r =>
      if Ascii.eqb c "," then
        and_then (more r) (fun '(xs, rest) => Parsed (x :: xs, rest))
      else if Ascii.eqb c close then Parsed ([x], r)
      else Malformed
  end.

(** A value, the elements of an array after its bracket, the members of an
    object after its brace.  [fuel] bounds the nesting of calls. *)
Fixpoint parse_value (fuel : nat) (s : string) {struct fuel}
  : reading (value * string) :=
  match fuel with
  | O => Unsupported
  | S fuel' =>
      match skip_ws s with
      | EmptyString => Malformed
      | String c r =>
          if Ascii.eqb c "n" then literal "ull" JNull r
          else if Ascii.eqb c "t" then literal "rue" (JBool true) r
          else if Ascii.eqb c "f" then literal "alse" (JBool false) r
          else if Ascii.eqb c dquote then
            and_then (parse_string_body r)
                     (fun '(str, rest) => Parsed (JStr str, rest))
          else if Ascii.eqb c "[" then
            match strip_prefix "]" (skip_ws r) with
            | Some rest => Parsed (JArr [], rest)
            | None =>
                and_then (parse_elements fuel' r)
                         (fun '(l, rest) => Parsed (JArr l, rest))
            end
          else if Ascii.eqb c "{" then
            match strip_prefix "}" (skip_ws r) with
            | Some rest => Parsed (JObj [], rest)
            | None =>
                and_then (parse_members fuel' r)
                         (fun '(m, rest) => Parsed (JObj (assign [] m), rest))
            end
          else parse_number (String c r)
      end
  end
with parse_elements (fuel : nat) (s : string) {struct fuel}
  : reading (list value * string) :=
  match fuel with
  | O => Unsupported
  | S fuel' =>
      and_then (parse_value fuel' s)
               (fun '(v, r) => after_member "]" v r (parse_elements fuel'))
  end
with parse_members (fuel : nat) (s : string) {struct fuel}
  : reading (list (string * value) * string) :=
  match fuel with
  | O => Unsupported
  | S fuel' =>
      match strip_prefix (String dquote "") (skip_ws s) with
      | None => Malformed
      | Some r =>
          and_then (parse_string_body r) (fun '(k, r1) =>
            match strip_prefix ":" (skip_ws r1) with
            | None => Malformed
            | Some r2 =>
                and_then (parse_value fuel' r2) (fun '(v, r3) =>
                  after_member "}" (k, v) r3 (parse_members fuel'))
            end)
      end
  end.

(** [JSON.parse(text)]: one value, with nothing but white space after it.
    The fuel grows with the length of the text; where it runs out there is
    no verdict. *)
Definition parse (text : string) : reading value :=
  and_then (parse_value (S (2 * String.length text)) text) (fun '(v, rest) =>
    match skip_ws rest with
    | EmptyString => Parsed v
    | String _ _ => Malformed
    end).

(** ** Notions the round trip is stated with *)

(** The objects in a value, at any depth, have distinct property names, as
    the objects of JavaScript have. *)
Fixpoint well_formed (v : value) : bool :=
  match v with
  | JArr l => forallb well_formed l
  | JObj m =>
      bool_decide (NoDup (keys m))
      && forallb (fun kv => well_formed (snd kv)) m
  | _ => true
  end.

(** JSON carries the value: it is made of [null], booleans, strings, safe
    integers, and arrays and objects of such values.  [NaN] is not
    carried. *)
Fixpoint carried (v : value) : bool :=
  match v with
  | JNaN => false
  | JNum n => safe_integer n
  | JArr l => forallb carried l
  | JObj m => forallb (fun kv => carried (snd kv)) m
  | _ => true
  end.

(** A bound on the calls [parse_value] needs to read a value back. *)
Fixpoint size (v : value) : nat :=
  match v with
  | JArr l => S (fold_right (fun x n => S (size x + n)) 0 l)
  | JObj m => S (fold_right (fun kv n => S (size (snd kv) + n)) 0 m)
  | _ => 1
  end.

Definition sizes (l : list value) : nat :=
  fold_right (fun x n => S (size x + n)) 0 l.

Definition member_sizes (m : object) : nat :=
  fold_right (fun kv n => S (size (snd kv) + n)) 0 m.

Definition is_digit (c : ascii) : bool :=
  match digit_of c with Some _ => true | None => false end.

(** The text does not go on with a digit, a fraction or an exponent. *)
Definition ends_number (rest : string) : bool :=
  match rest with
  | EmptyString => true
  | String c _ =>
      match digit_of c with
      | Some _ => false
      | None => negb (continues_number rest)
      end
  end.

(** What follows a value inside an array or an object, or at the end. *)
Definition ends_value (rest : string) : bool :=
  match rest with
  | EmptyString => true
  | String c _ => Ascii.eqb c "," || Ascii.eqb c "]" || Ascii.eqb c "}"
  end.

(** A written number: digits, with no zero in front of others. *)
Definition canonical (u : uint) : Prop :=
  u <> Nil /\ forall u', u = D0 u' -> u' = Nil.

(** The first character of the text is neither white space nor a closing
    bracket. *)
Definition opens_value (s : string) : Prop :=
  strip_prefix "]" (skip_ws s) = None /\ skip_ws s = s.

(** [v], written and followed by the end of a value, is read back with
    enough fuel. *)
Definition reads_back (v : value) : Prop :=
  forall fuel rest,
    size v <= fuel -> well_formed v = true -> carried v = true ->
    ends_value rest = true ->
    parse_value fuel (stringify v +:+ rest) = Parsed (v, rest).

End Json.

(* ===================================================================== *)
(** * The calendar store *)
(* ===================================================================== *)

(** ** State *)

(** A calendar is an object.  [calendar] is the current selection: [null]
    at the start, an object once selected, [undefined] after a failed
    lookup. *)
Record state : Type := State {
  localCalendars : list object;
  apiCalendars : list object;
  calendar : jsval;
}.

Definition initial_state : state := State [] [] (Some JNull).

(** What the module reads of the root store. *)
Record rootState : Type := RootState {
  token : jsval;
  apiUrl : string;
}.

(** ** Mutations *)

Module mutations.

Definition setLocalCalendars (st : state) (calendars : list object) : state :=
  State calendars (apiCalendars st) (calendar st).

Definition setApiCalendars (st : state) (calendars : list object) : state :=
  State (localCalendars st) calendars (calendar st).

Definition setCalendar (st : state) (c : jsval) : state :=
  State (localCalendars st) (apiCalendars st) c.

Definition addLocalCalendar (st : state) (c : object) : state :=
  State (localCalendars st ++ [c]) (apiCalendars st) (calendar st).

Definition removeLocalCalendar (st : state) (c : object) : state :=
  State
    (List.filter
       (fun c' => negb (strict_eq (get_prop c' "uuid") (get_prop c "uuid")))
       (localCalendars st))
    (apiCalendars st) (calendar st).

Definition updateLocalCalendar (st : state) (c : object) : state :=
  let index :=
    findIndex (fun c' => strict_eq (get_prop c' "uid") (get_prop c "uid"))
              (localCalendars st) in
  State (splice index 1 [c] (localCalendars st)) (apiCalendars st) (calendar st).

Definition updateApiCalendar (st : state) (c : object) : state :=
  let index :=
    findIndex (fun c' => strict_eq (get_prop c' "uuid") (get_prop c "uuid"))
              (apiCalendars st) in
  State (localCalendars st) (splice index 1 [c] (apiCalendars st)) (calendar st).

End mutations.

(** ** Mutations by type

    An action names the mutation it commits by its type, a string, and
    Vuex looks the handler up among those the module declares. *)

(** What the actions hand to [commit]. *)
Inductive payload : Type :=
| Calendars (l : list object)
| Calendar (c : object)
| Selection (v : jsval).

(** The handlers of [mutations] under their types, in the order of the
    source.  A handler gives no state where the payload would put into the
    lists what is not a calendar; the handler of [addSection] changes the
    selected calendar in place and is not modelled. *)
Definition declared_mutations
  : list (string * (state -> payload -> option state)) := [
  ("setLocalCalendars", fun st p =>
     match p with
     | Calendars l => Some (mutations.setLocalCalendars st l)
     | _ => None
     end);
  ("setApiCalendars", fun st p =>
     match p with
     | Calendars l => Some (mutations.setApiCalendars st l)
     | _ => None
     end);
  ("setCalendar", fun st p =>
     match p with
     | Selection v => Some (mutations.setCalendar st v)
     | Calendar c => Some (mutations.setCalendar st (Some (JObj c)))
     | Calendars l => Some (mutations.setCalendar st (Some (JArr (map JObj l))))
     end);
  ("addLocalCalendar", fun st p =>
     match p with
     | Calendar c => Some (mutations.addLocalCalendar st c)
     | _ => None
     end);
  ("removeLocalCalendar", fun st p =>
     match p with
     | Calendar c => Some (mutations.removeLocalCalendar st c)
     | _ => None
     end);
  ("updateLocalCalendar", fun st p =>
     match p with
     | Calendar c => Some (mutations.updateLocalCalendar st c)
     | _ => None
     end);
  ("updateApiCalendar", fun st p =>
     match p with
     | Calendar c => Some (mutations.updateApiCalendar st c)
     | _ => None
     end);
  ("addSection", fun _ _ => None)
].

Definition handler_of (type : string)
  : option (state -> payload -> option state) :=
  option_map snd
    (find_first (fun h => String.eqb (fst h) type) declared_mutations).

(** ** Getters *)

Module getters.

Definition UuidApiCalendarsExist (st : state) (uuid : jsval) : bool :=
  existsb (fun c => strict_eq (get_prop c "uuid") uuid) (apiCalendars st).

End getters.

(** ** The world an action runs in *)

Inductive method : Type := GET | POST | PUT | PATCH | DELETE.

(** A request as the module hands it to axios: the body is the data of the
    call, which axios writes as JSON, [undefined] when the call passes
    none; [authorization] is the header of that name. *)
Record request : Type := Request {
  req_method : method;
  url : string;
  body : jsval;
  authorization : string;
}.

(** The server's answer to a request: the data of a successful response, or
    a failure (no connection, a status outside 2xx). *)
Inductive reply : Type :=
| Reply (data : value)
| Failure (message : string).

(** What can be thrown, or be the reason of a rejected promise. *)
Inductive exn : Type :=
| AxiosError (message : string)
| TypeError (message : string)
| SyntaxError
| Reason (v : value)
| OutsideModel.

(** A line of the console: an error that was caught and logged, or a
    message. *)
Inductive console_line : Type :=
| console_log (e : exn)
| console_error (e : exn)
| console_error_text (message : string).

Record world : Type := World {
  store : state;
  root : rootState;
  localStorage : gmap string string;
  requests : list request;
  generated : nat;
  console : list console_line;
}.

(** How a promise settles. *)
Inductive outcome (A : Type) : Type :=
| Resolved (a : A)
| Rejected (e : exn).
Arguments Resolved {A} a.
Arguments Rejected {A} e.

(** An asynchronous function run to the end: the settled promise and the
    world it leaves. *)
Definition action (A : Type) : Type := world -> outcome A * world.

Definition ret {A} (a : A) : action A := fun w => (Resolved a, w).

Definition throw {A} (e : exn) : action A := fun w => (Rejected e, w).

Definition bind {A B} (a : action A) (k : A -> action B) : action B :=
  fun w =>
    match a w with
    | (Resolved x, w') => k x w'
    | (Rejected e, w') => (Rejected e, w')
    end.

#[global] Instance action_ret : MRet action := @ret.
#[global] Instance action_bind : MBind action := fun A B k a => bind a k.

(** [try { a } catch (error) { handler(error) }]: what [a] did to the world
    before it threw stays done. *)
Definition try_catch {A} (a : action A) (handler : exn -> action A) : action A :=
  fun w =>
    match a w with
    | (Resolved x, w') => (Resolved x, w')
    | (Rejected e, w') => handler e w'
    end.

(** [dispatch(...)] whose promise is dropped: the action runs, its result
    and its rejection reach nobody. *)
Definition detached {A} (a : action A) : action unit :=
  fun w => (Resolved tt, snd (a w)).

Definition get_state : action state := fun w => (Resolved (store w), w).

Definition get_rootState : action rootState := fun w => (Resolved (root w), w).

(** [commit(mutation, payload)]. *)
Definition commit {P} (mutation : state -> P -> state) (payload : P) : action unit :=
  fun w =>
    (Resolved tt,
     World (mutation (store w) payload) (root w) (localStorage w)
           (requests w) (generated w) (console w)).

Definition localStorage_getItem (key : string) : action (option string) :=
  fun w => (Resolved (localStorage w !! key), w).

Definition localStorage_setItem (key text : string) : action unit :=
  fun w =>
    (Resolved tt,
     World (store w) (root w) (<[key := text]> (localStorage w))
           (requests w) (generated w) (console w)).

Definition console_write (line : console_line) : action unit :=
  fun w =>
    (Resolved tt,
     World (store w) (root w) (localStorage w) (requests w) (generated w)
           (console w ++ [line])).

(** [JSON.parse(item)] where [item] is what [getItem] gave: [null] is
    converted to the text [null] first.  A text that is not JSON throws the
    [SyntaxError]; a text that [Json.parse] has no verdict for leaves the
    model. *)
Definition JSON_parse (item : option string) : action value :=
  match Json.parse (default "null" item) with
  | Json.Parsed v => ret v
  | Json.Malformed => throw SyntaxError
  | Json.Unsupported => throw OutsideModel
  end.

(** [for each x of l, in order]. *)
Fixpoint for_each {A B} (f : A -> action B) (l : list A) : action (list B) :=
  match l with
  | [] => ret []
  | x :: xs => y ← f x; ys ← for_each f xs; ret (y :: ys)
  end.

Definition bearer (t : jsval) : string := "Bearer " +:+ template t.

(** The calendars in a parsed value; [None] when it is not an array of
    objects. *)
Definition as_calendars (v : value) : option (list object) :=
  match v with
  | JArr l =>
      mapM (fun x => match x with JObj m => Some m | _ => None end) l
  | _ => None
  end.

(** [sections.map((s) => s.id)], as it is sent in a request body: reading
    [id] of [null] throws, reading it of anything else without that
    property gives [undefined], which the body carries as [null]. *)
Definition id_on_wire (s : value) : value :=
  match s with
  | JObj m => default JNull (get_prop m "id")
  | _ => JNull
  end.

Definition section_id (s : value) : action value :=
  match s with
  | JNull => throw (TypeError "Cannot read properties of null")
  | _ => ret (id_on_wire s)
  end.

Definition section_ids (sections : jsval) : action (list value) :=
  match sections with
  | Some (JArr l) => for_each section_id l
  | None | Some JNull => throw (TypeError "Cannot read properties")
  | Some _ => throw (TypeError "sections.map is not a function")
  end.

(** ** Actions *)

Module actions.
Section actions.

(** The server, given the requests issued before this one. *)
Variable server : list request -> request -> reply.

(** The uuid generator: [uuidv4 n] is what its call number [n] returns. *)
Variable uuidv4 : nat -> string.

Definition axios (m : method) (u : string) (b : jsval) (auth : string)
  : action value :=
  fun w =>
    let r := Request m u b auth in
    let w' := World (store w) (root w) (localStorage w) (requests w ++ [r])
                    (generated w) (console w) in
    match server (requests w) r with
    | Reply data => (Resolved data, w')
    | Failure message => (Rejected (AxiosError message), w')
    end.

Definition new_uuid : action string :=
  fun w =>
    (Resolved (uuidv4 (generated w)),
     World (store w) (root w) (localStorage w) (requests w)
           (S (generated w)) (console w)).

Definition saveLocalCalendars : action jsval :=
  st ← get_state;
  localStorage_setItem "calendars"
    (Json.stringify (JArr (map JObj (localCalendars st))));;
  ret undefined.

Definition setLocalCalendars (calendars : list object) : action jsval :=
  commit mutations.setLocalCalendars calendars;;
  detached saveLocalCalendars;;
  ret undefined.

(** The callback of [map] in [addUuidToCalendars]. *)
Definition ensure_uuid (c : object) : action object :=
  if truthy (get_prop c "uuid") then ret c
  else u ← new_uuid; ret (assign [("uuid", JStr u)] c).

Definition addUuidToCalendars : action jsval :=
  st ← get_state;
  calendars ← for_each ensure_uuid (localCalendars st);
  detached (setLocalCalendars calendars);;
  ret undefined.

(** The lists of the state hold calendars, which are objects.  A stored
    text that is JSON and is neither [null] nor an array of objects, which
    the source would commit as it is, leaves the model. *)
Definition getLocalCalendars : action jsval :=
  item ← localStorage_getItem "calendars";
  parsed ← JSON_parse item;
  calendars ←
    match parsed with
    | JNull => ret []
    | v =>
        match as_calendars v with
        | Some l => ret l
        | None => throw OutsideModel
        end
    end;
  commit mutations.setLocalCalendars calendars;;
  ret undefined.

Definition saveSharedCalendar (sharedCalendar : object) : action jsval :=
  u ← new_uuid;
  let newCalendar := assign [("uuid", JStr u)] sharedCalendar in
  commit mutations.addLocalCalendar newCalendar;;
  detached saveLocalCalendars;;
  ret undefined.

Definition getApiCalendars : action jsval :=
  try_catch
    (rs ← get_rootState;
     response ← axios GET (apiUrl rs +:+ "/calendars") undefined (bearer (token rs));
     calendars ←
       match response with
       | JArr l =>
           ret (map (fun c => set_prop "fromApi" (JBool true)
                                       (own_properties (Some c))) l)
       | _ => throw (TypeError "response.data.map is not a function")
       end;
     commit mutations.setApiCalendars calendars;;
     ret (Some (JArr (map JObj calendars))))
    (fun error => console_write (console_log error);; ret (Some JNull)).

Definition deleteCalendar (c : object) : action jsval :=
  commit mutations.removeLocalCalendar c;;
  detached saveLocalCalendars;;
  try_catch
    (rs ← get_rootState;
     axios DELETE (apiUrl rs +:+ "/calendars/" +:+ template (get_prop c "uuid"))
           undefined (bearer (token rs));;
     ret tt)
    (fun _ => ret tt);;
  ret undefined.

Definition createCalendar (c : object) : action jsval :=
  rs ← get_rootState;
  if negb (truthy (token rs)) then
    u ← new_uuid;
    commit mutations.addLocalCalendar (assign [("uuid", JStr u)] c);;
    detached saveLocalCalendars;;
    ret (Some (JObj c))
  else
    try_catch
      (response ← axios POST (apiUrl rs +:+ "/calendars") (Some (JObj c))
                        (bearer (token rs));
       ret (Some response))
      (fun error => console_write (console_error error);; ret undefined).

Definition updateCalendar (c : object) : action jsval :=
  if negb (truthy (get_prop c "fromApi")) then
    commit mutations.updateLocalCalendar c;;
    detached saveLocalCalendars;;
    ret undefined
  else
    try_catch
      (rs ← get_rootState;
       response ←
         axios PUT (apiUrl rs +:+ "/calendars/" +:+ template (get_prop c "uuid"))
               (Some (JObj c)) (bearer (token rs));
       sectionsId ← section_ids (get_prop c "sections");
       axios POST
             (apiUrl rs +:+ "/calendars/" +:+ template (get_prop c "uuid")
                +:+ "/sections")
             (Some (JObj [("sections", JArr sectionsId)])) (bearer (token rs));;
       ret (Some response))
      (fun error => console_write (console_error error);; ret undefined).

Definition togglePrivacy (uuid : jsval) : action jsval :=
  st ← get_state;
  match find_first (fun c => strict_eq (get_prop c "uuid") uuid)
                   (apiCalendars st) with
  | None => throw (Reason (JStr "Calendar not found"))
  | Some c =>
      rs ← get_rootState;
      response ←
        axios PATCH (apiUrl rs +:+ "/calendars/" +:+ template uuid)
              (Some (JObj [("is_public",
                            JBool (negb (truthy (get_prop c "is_public"))))]))
              (bearer (token rs));
      let apiCalendar :=
        set_prop "fromApi" (JBool true) (own_properties (Some response)) in
      commit mutations.updateApiCalendar apiCalendar;;
      commit mutations.setCalendar (Some (JObj apiCalendar));;
      ret (Some (JObj apiCalendar))
  end.

Definition getLocalCalendarByUuid (uuid : jsval) : action jsval :=
  st ← get_state;
  commit mutations.setCalendar
    (option_map JObj
       (find_first (fun c => strict_eq (get_prop c "uuid") uuid)
                   (localCalendars st)));;
  ret undefined.

Definition getApiCalendarByUuid (uuid : jsval) : action jsval :=
  try_catch
    (rs ← get_rootState;
     response ← axios GET (apiUrl rs +:+ "/calendars/" +:+ template uuid)
                      undefined (bearer (token rs));
     commit mutations.setCalendar
       (Some (JObj (set_prop "fromApi" (JBool true)
                             (own_properties (Some response)))));;
     ret (Some response))
    (fun _ => ret (Some JNull)).

(** Whether Vuex runs as a development build, and the namespace of the
    module: the name it is registered under, followed by a slash. *)
Variable development : bool.
Variable namespace : string.

(** [commit] of a type without a handler, in a module with a namespace:
    Vuex returns and the state stays as it is; a development build writes
    this message to the console first. *)
Definition unknown_mutation (type : string) : action unit :=
  if development then
    console_write
      (console_error_text
         ("[vuex] unknown local mutation type: " +:+ type
            +:+ ", global type: " +:+ namespace +:+ type))
  else ret tt.

(** [commit(type, payload)] with the mutation given by its type. *)
Definition commit_type (type : string) (p : payload) : action unit :=
  match handler_of type with
  | Some handler =>
      fun w =>
        match handler (store w) p with
        | Some st =>
            (Resolved tt,
             World st (root w) (localStorage w) (requests w) (generated w)
                   (console w))
        | None => (Rejected OutsideModel, w)
        end
  | None => unknown_mutation type
  end.

Definition addCalendar (c : object) : action jsval :=
  u ← new_uuid;
  commit_type "addCalendar" (Calendar (assign [("uuid", JStr u)] c));;
  detached saveLocalCalendars;;
  ret undefined.

End actions.
End actions.

(* ===================================================================== *)
(** * The router *)
(* ===================================================================== *)

Module Router.

Inductive guard : Type := onlyGuests.

Definition guard_eqb (a b : guard) : bool :=
  match a, b with onlyGuests, onlyGuests => true end.

(** A view is a component file, imported at the top of the module or
    loaded on first use. *)
Inductive view : Type :=
| Imported (file : string)
| Lazy (file : string).

Record route : Type := Route {
  path : string;
  name : string;
  component : view;
  beforeEnter : list guard;
}.

Definition routes : list route := [
  Route "/" "home" (Imported "../views/Home.vue") [];
  Route "/f" "files.index" (Lazy "../views/files/FilesIndex.vue") [];
  Route "/c" "calendars.index" (Imported "../views/CalendarIndex.vue") [];
  Route "/c/:uuid" "calendars.show" (Lazy "../views/CalendarShow.vue") [];
  Route "/c/:uuid/edit" "calendars.edit" (Lazy "../views/CalendarEdit.vue") [];
  Route "/login" "login" (Lazy "../views/auth/Login.vue") [onlyGuests];
  Route "/registration" "registration"
        (Lazy "../views/auth/Registration.vue") [onlyGuests];
  Route "/password-recovery" "password-recovery"
        (Lazy "../views/auth/PasswordRecoveryView.vue") [onlyGuests];
  Route "/:pathMatch(.*)*" "not-found"
        (Lazy "../views/errors/NotFound.vue") []
].

Definition guarded_by (g : guard) (r : route) : bool :=
  existsb (guard_eqb g) (beforeEnter r).

(** ** Matching a path against a route's pattern

    The router's own matching, for the patterns the table uses and with the
    router's defaults: a static segment matches without regard to case,
    [:param] matches one segment that is not empty, a repeatable parameter
    with the match-anything pattern (the table's last route) matches
    whatever is left, and one slash at the end of the path is ignored. *)

Inductive segment : Type :=
| Static (text : string)
| Param
| CatchAll.

(** The text between the slashes of [s], from its start. *)
Fixpoint split_slash (s : string) : list string :=
  match s with
  | EmptyString => [""]
  | String c r =>
      if Ascii.eqb c "/" then "" :: split_slash r
      else
        match split_slash r with
        | x :: xs => String c x :: xs
        | [] => [String c ""]
        end
  end.

Fixpoint drop_last_empty (l : list string) : list string :=
  match l with
  | [] => []
  | [x] => if String.eqb x "" then [] else [x]
  | x :: xs => x :: drop_last_empty xs
  end.

(** The segments of an absolute path; [None] for a path that is not empty
    and does not begin with a slash. *)
Definition segments (p : string) : option (list string) :=
  match p with
  | EmptyString => Some []
  | String c r =>
      if Ascii.eqb c "/" then Some (drop_last_empty (split_slash r)) else None
  end.

Fixpoint ends_with_catch_all (s : string) : bool :=
  String.eqb s "(.*)*" ||
  match s with
  | EmptyString => false
  | String _ r => ends_with_catch_all r
  end.

Definition compile_segment (s : string) : segment :=
  match s with
  | String c r =>
      if Ascii.eqb c ":" then
        if ends_with_catch_all r then CatchAll else Param
      else Static s
  | EmptyString => Static s
  end.

Definition compile (pattern : string) : list segment :=
  map compile_segment (default [] (segments pattern)).

Definition lower_char (c : ascii) : ascii :=
  let n := N_of_ascii c in
  if (65 <=? n)%N && (n <=? 90)%N then ascii_of_N (n + 32) else c.

Fixpoint lower (s : string) : string :=
  match s with
  | EmptyString => ""
  | String c r => String (lower_char c) (lower r)
  end.

Fixpoint match_segments (pattern : list segment) (p : list string) : bool :=
  match pattern, p with
  | CatchAll :: _, _ => true
  | [], [] => true
  | Static text :: pattern', x :: p' =>
      String.eqb (lower text) (lower x) && match_segments pattern' p'
  | Param :: pattern', x :: p' =>
      negb (String.eqb x "") && match_segments pattern' p'
  | _, _ => false
  end.

Definition matches (r : route) (p : string) : bool :=
  match segments p with
  | Some segs => match_segments (compile (path r)) segs
  | None => false
  end.

(** The route a path resolves to: the first of the table that matches. *)
Definition resolve (p : string) : option route :=
  find_first (fun r => matches r p) routes.

Definition not_found : route :=
  Route "/:pathMatch(.*)*" "not-found" (Lazy "../views/errors/NotFound.vue") [].

End Router.

(* ===================================================================== *)
(** * Sample servers, generators and worlds *)
(* ===================================================================== *)

(** A server out of reach. *)
Definition offline : list request -> request -> reply :=
  fun _ _ => Failure "Network Error".

(** A server that answers every request with the body it was sent. *)
Definition echo : list request -> request -> reply :=
  fun _ r => Reply (default JNull (body r)).

(** A server that accepts a PUT and fails everything else. *)
Definition put_only : list request -> request -> reply :=
  fun _ r =>
    match req_method r with
    | PUT => Reply (default JNull (body r))
    | _ => Failure "Request failed with status code 500"
    end.

(** A server that answers every request with one public calendar. *)
Definition made_public : list request -> request -> reply :=
  fun _ _ => Reply (JObj [("uuid", JStr "x"); ("is_public", JBool true)]).

Definition counter_uuid (n : nat) : string := "uuid-" +:+ string_of_nat n.

Definition fresh_world (t : jsval) (l api : list object) : world :=
  World (State l api (Some JNull)) (RootState t "https://api.test") ∅ [] 0 [].

(* ===================================================================== *)
(** * Notions and sample data the theorems are stated with *)
(* ===================================================================== *)

(** The two requests of the API branch. *)
Definition put_calendar (rs : rootState) (c : object) : request :=
  Request PUT (apiUrl rs +:+ "/calendars/" +:+ template (get_prop c "uuid"))
          (Some (JObj c)) (bearer (token rs)).

Definition post_sections (rs : rootState) (c : object) (ids : list value)
  : request :=
  Request POST
          (apiUrl rs +:+ "/calendars/" +:+ template (get_prop c "uuid")
             +:+ "/sections")
          (Some (JObj [("sections", JArr ids)])) (bearer (token rs)).

Definition api_calendar : object :=
  [("uuid", JStr "x"); ("fromApi", JBool true);
   ("sections", JArr [JObj [("id", JNum 7)]])].

(** A calendar from the API that has no sections, and one with an entry of
    its sections missing. *)
Definition api_calendar_without_sections : object :=
  [("uuid", JStr "x"); ("fromApi", JBool true)].

Definition api_calendar_with_hole : object :=
  [("uuid", JStr "x"); ("fromApi", JBool true);
   ("sections", JArr [JObj [("id", JNum 7)]; JNull])].

(** What [ensure_uuid] makes of a calendar. *)
Definition migrated (c c1 : object) : Prop :=
  if truthy (get_prop c "uuid") then c1 = c
  else exists u, c1 = assign [("uuid", JStr u)] c.

(** A calendar [ensure_uuid] gives back as it is, whatever it generates. *)
Definition settled (c : object) : Prop :=
  truthy (get_prop c "uuid") = false ->
  forall u, assign [("uuid", JStr u)] c = c.

Definition legacy_calendars : list object :=
  [[("name", JStr "B")];
   [("name", JStr "C"); ("uuid", JStr "")];
   [("uuid", JStr "k")]].



Definition two_calendars : list object :=
  [[("uuid", JStr "a"); ("uid", JNum 1)];
   [("uuid", JStr "b"); ("uid", JNum 2)]].

(** ** Notions for the further properties *)

(** Local storage holds the text of the store's local list. *)
Definition persisted (w : world) : Prop :=
  localStorage w !! "calendars"
  = Some (Json.stringify (JArr (map JObj (localCalendars (store w))))).

(** [{ ...data, fromApi: true }]. *)
Definition tag_fromApi (data : value) : object :=
  set_prop "fromApi" (JBool true) (own_properties (Some data)).

(** The requests of the other actions. *)
Definition get_calendars (rs : rootState) : request :=
  Request GET (apiUrl rs +:+ "/calendars") undefined (bearer (token rs)).

Definition get_calendar (rs : rootState) (uuid : jsval) : request :=
  Request GET (apiUrl rs +:+ "/calendars/" +:+ template uuid) undefined
          (bearer (token rs)).

Definition patch_privacy (rs : rootState) (uuid : jsval) (c : object) : request :=
  Request PATCH (apiUrl rs +:+ "/calendars/" +:+ template uuid)
          (Some (JObj [("is_public",
                        JBool (negb (truthy (get_prop c "is_public"))))]))
          (bearer (token rs)).

Definition delete_calendar (rs : rootState) (c : object) : request :=
  Request DELETE
          (apiUrl rs +:+ "/calendars/" +:+ template (get_prop c "uuid"))
          undefined (bearer (token rs)).

Definition post_calendar (rs : rootState) (c : object) : request :=
  Request POST (apiUrl rs +:+ "/calendars") (Some (JObj c)) (bearer (token rs)).

(** The callbacks of the searches by uuid and by uid. *)
Definition same_uuid (uuid : jsval) (c : object) : bool :=
  strict_eq (get_prop c "uuid") uuid.

Definition same_uid (uid : jsval) (c : object) : bool :=
  strict_eq (get_prop c "uid") uid.

(** A world with another store, and with more requests issued. *)
Definition with_store (w : world) (st : state) : world :=
  World st (root w) (localStorage w) (requests w) (generated w) (console w).

Definition with_requests (w : world) (rs : list request) : world :=
  World (store w) (root w) (localStorage w) (requests w ++ rs) (generated w)
        (console w).

(** The local side of [w'] is that of [w]: the local list and local
    storage. *)
Definition local_untouched (w w' : world) : Prop :=
  localCalendars (store w') = localCalendars (store w)
  /\ localStorage w' = localStorage w.

(** The API side of [w'] is that of [w]: the requests issued and the API
    list. *)
Definition api_untouched (w w' : world) : Prop :=
  requests w' = requests w
  /\ apiCalendars (store w') = apiCalendars (store w).

Definition one_private : list object :=
  [[("uuid", JStr "x"); ("is_public", JBool false)]].

(** A server that wraps a calendar in an envelope. *)
Definition wrapped_answer : list request -> request -> reply :=
  fun _ _ => Reply (JObj [("data", JObj [("uuid", JStr "x")])]).

(** The uuids of a list of calendars, [undefined] for a calendar without
    one. *)
Definition uuids (l : list object) : list jsval :=
  map (fun c => get_prop c "uuid") l.

(* ===================================================================== *)
(** * The model on small inputs *)
(* ===================================================================== *)

Example splice_inside : splice 1 1 [9] [1; 2; 3] = [1; 9; 3].
Proof. reflexivity. Qed.

Example splice_minus_one : splice (-1) 1 [9] [1; 2; 3] = [1; 2; 9].
Proof. reflexivity. Qed.

Example splice_minus_one_empty : splice (-1) 1 [9] ([] : list nat) = [9].
Proof. reflexivity. Qed.

Example splice_beyond_end : splice 5 1 [9] [1; 2] = [1; 2; 9].
Proof. reflexivity. Qed.

Example findIndex_second : findIndex (Nat.eqb 2) [1; 2; 2] = 1%Z.
Proof. reflexivity. Qed.

Example findIndex_absent : findIndex (Nat.eqb 7) [1; 2; 2] = (-1)%Z.
Proof. reflexivity. Qed.

Example spread_overwrites :
  assign [("uuid", JStr "new")] [("name", JStr "A"); ("uuid", JStr "old")]
  = [("uuid", JStr "old"); ("name", JStr "A")].
Proof. reflexivity. Qed.

Example strict_eq_undefined : strict_eq undefined undefined = true.
Proof. reflexivity. Qed.

Example template_array :
  template (Some (JArr [JNum 1; JNull; JStr "a"])) = "1,,a".
Proof. reflexivity. Qed.

Example stringify_sample :
  Json.stringify (JArr [JObj [("uuid", JStr "a-1"); ("n", JNum (-12)%Z);
                              ("sections", JArr [JNull; JBool true])]])
  = "[{" +:+ String Json.dquote "uuid" +:+ String Json.dquote ":"
     +:+ String Json.dquote "a-1" +:+ String Json.dquote ","
     +:+ String Json.dquote "n" +:+ String Json.dquote ":-12,"
     +:+ String Json.dquote "sections" +:+ String Json.dquote ":[null,true]}]".
Proof. reflexivity. Qed.

Example parse_sample :
  Json.parse (" [ {" +:+ String Json.dquote "a" +:+ String Json.dquote " : 1 , "
     +:+ String Json.dquote "a" +:+ String Json.dquote ":[ ], "
     +:+ String Json.dquote "b\n" +:+ String Json.dquote ": -7 } ] ")
  = Json.Parsed
      (JArr [JObj [("a", JArr []); (String "b" (String "010" ""), JNum (-7))]]).
Proof. vm_compute. reflexivity. Qed.

Example parse_not_json :
  map Json.parse ["01"; "[1,]"; "[{"; "nul"; "-"; "+1"; "NaN"; "1 2"; ""]
  = [Json.Malformed; Json.Malformed; Json.Malformed; Json.Malformed;
     Json.Malformed; Json.Malformed; Json.Malformed; Json.Malformed;
     Json.Malformed].
Proof. vm_compute. reflexivity. Qed.

Example parse_beyond_the_model :
  map Json.parse ["1.5"; "[1e3]"; "-0"; "9007199254740993";
                  String Json.dquote "\u0100" +:+ String Json.dquote ""]
  = [Json.Unsupported; Json.Unsupported; Json.Unsupported; Json.Unsupported;
     Json.Unsupported].
Proof. vm_compute. reflexivity. Qed.

Example stringify_NaN :
  Json.stringify (JArr [JObj [("n", JNaN)]])
  = "[{" +:+ String Json.dquote "n" +:+ String Json.dquote ":null}]".
Proof. reflexivity. Qed.

Example resolve_samples :
  map (fun p => option_map Router.name (Router.resolve p))
      ["/"; "/c"; "/C/"; "/c/abc"; "/c/abc/edit"; "/c/abc/edit/x";
       "/login/"; "//"; "/c//"; "relative"]
  = [Some "home"; Some "calendars.index"; Some "calendars.index";
     Some "calendars.show"; Some "calendars.edit"; Some "not-found";
     Some "login"; Some "not-found"; Some "not-found"; None].
Proof. reflexivity. Qed.

Example getApiCalendars_offline :
  actions.getApiCalendars offline (fresh_world (Some (JStr "t")) [] [])
  = (Resolved (Some JNull),
     World (State [] [] (Some JNull)) (RootState (Some (JStr "t")) "https://api.test")
           ∅ [Request GET "https://api.test/calendars" undefined "Bearer t"] 0
           [console_log (AxiosError "Network Error")]).
Proof. reflexivity. Qed.

Example getApiCalendars_tags_fromApi :
  let server := fun (_ : list request) (_ : request) =>
                  Reply (JArr [JObj [("uuid", JStr "x")]]) in
  apiCalendars (store (snd (actions.getApiCalendars server
                              (fresh_world (Some (JStr "t")) [] []))))
  = [[("uuid", JStr "x"); ("fromApi", JBool true)]].
Proof. reflexivity. Qed.

Example getLocalCalendars_empty_storage :
  actions.getLocalCalendars (fresh_world None [[("name", JStr "A")]] [])
  = (Resolved undefined, fresh_world None [] []).
Proof. reflexivity. Qed.

Example getLocalCalendars_broken_storage :
  fst (actions.getLocalCalendars
         (World initial_state (RootState None "") {["calendars" := "[{"]} [] 0 []))
  = Rejected SyntaxError.
Proof. reflexivity. Qed.

Example updateLocalCalendar_without_uid_replaces_first :
  localCalendars
    (mutations.updateLocalCalendar
       (State [[("uuid", JStr "a")]; [("uuid", JStr "b")]] [] None)
       [("uuid", JStr "b"); ("name", JStr "B")])
  = [[("uuid", JStr "b"); ("name", JStr "B")]; [("uuid", JStr "b")]].
Proof. reflexivity. Qed.

(** The two scenarios of the specification. *)
Example scenario_createCalendar_without_token :
  let w := snd (actions.createCalendar offline counter_uuid
                  [("name", JStr "A")] (fresh_world (Some JNull) [] [])) in
  localCalendars (store w) = [[("uuid", JStr "uuid-0"); ("name", JStr "A")]]
  /\ option_map Json.parse (localStorage w !! "calendars")
     = Some (Json.Parsed
               (JArr [JObj [("uuid", JStr "uuid-0"); ("name", JStr "A")]])).
Proof. split; reflexivity. Qed.

Example scenario_togglePrivacy :
  let w0 := fresh_world (Some (JStr "t")) []
              [[("uuid", JStr "x"); ("is_public", JBool false)]] in
  let made := [("uuid", JStr "x"); ("is_public", JBool true);
               ("fromApi", JBool true)] in
  actions.togglePrivacy made_public (Some (JStr "x")) w0
  = (Resolved (Some (JObj made)),
     World (State [] [made] (Some (JObj made))) (root w0) (localStorage w0)
           [Request PATCH "https://api.test/calendars/x"
                    (Some (JObj [("is_public", JBool true)])) "Bearer t"]
           0 []).
Proof. reflexivity. Qed.

(* ===================================================================== *)
(** * Text: appending strings *)
(* ===================================================================== *)

Lemma app_String (c : ascii) (s r : string) :
  String c s +:+ r = String c (s +:+ r).
Proof. reflexivity. Qed.

Lemma app_empty_l (r : string) : "" +:+ r = r.
Proof. reflexivity. Qed.

Lemma app_empty_r (s : string) : s +:+ "" = s.
Proof. induction s as [|c s IH]; [reflexivity|]. now rewrite app_String, IH. Qed.

Lemma app_assoc_string (a b c : string) : (a +:+ b) +:+ c = a +:+ (b +:+ c).
Proof.
  induction a as [|x a IH]; [reflexivity|].
  now rewrite !app_String, IH.
Qed.

Lemma length_app_string (a b : string) :
  String.length (a +:+ b) = String.length a + String.length b.
Proof.
  induction a as [|x a IH]; [reflexivity|].
  rewrite app_String. simpl. now rewrite IH.
Qed.

(* ===================================================================== *)
(** * Objects and arrays *)
(* ===================================================================== *)

Lemma set_prop_fresh (k : string) (v : value) (o : object) :
  k ∉ keys o -> set_prop k v o = o ++ [(k, v)].
Proof.
  induction o as [|[k' v'] o IH]; intros Hk; [reflexivity|].
  cbn [set_prop]. cbn [keys map fst] in Hk.
  apply not_elem_of_cons in Hk as [Hne Hk].
  destruct (String.eqb_spec k' k) as [->|_]; [congruence|].
  cbn [app]. f_equal. now apply IH.
Qed.

Lemma assign_distinct (base m : object) :
  NoDup (keys (base ++ m)) -> assign base m = base ++ m.
Proof.
  revert base. induction m as [|[k v] m IH]; intros base Hnd.
  - now rewrite app_nil_r.
  - unfold assign. cbn [fold_left fst snd].
    change (fold_left _ m ?b) with (assign b m).
    assert (Hk : k ∉ keys base).
    { unfold keys in Hnd. rewrite map_app in Hnd.
      apply NoDup_app in Hnd as (_ & Hdisj & _).
      intros Hin. apply (Hdisj k Hin). cbn. apply list_elem_of_here. }
    rewrite set_prop_fresh by assumption.
    rewrite IH; rewrite <- app_assoc; [reflexivity|exact Hnd].
Qed.

Lemma assign_nil_distinct (m : object) :
  NoDup (keys m) -> assign [] m = m.
Proof. intros H. now rewrite assign_distinct. Qed.

Lemma get_prop_None_keys (o : object) (k : string) :
  get_prop o k = None <-> k ∉ keys o.
Proof.
  induction o as [|[k' v] o IH]; cbn [get_prop keys map fst].
  - split; [intros _; apply not_elem_of_nil|reflexivity].
  - rewrite not_elem_of_cons.
    destruct (String.eqb_spec k' k) as [->|Hne]; split.
    + discriminate.
    + intros [Hne _]. congruence.
    + intros H. split; [congruence|]. now apply IH.
    + intros [_ H]. now apply IH.
Qed.

(** A new object with one property, then the properties of [c]: when [c]
    has no property of that name, the new property comes first and [c]
    follows unchanged. *)
Lemma assign_new_property (k : string) (v : value) (c : object) :
  get_prop c k = None -> distinct_keys c -> assign [(k, v)] c = (k, v) :: c.
Proof.
  intros Hk Hc. apply (assign_distinct [(k, v)] c).
  cbn [app keys map fst]. apply NoDup_cons. split; [|exact Hc].
  now apply get_prop_None_keys.
Qed.

Lemma keys_set_prop (k : string) (v : value) (o : object) :
  keys (set_prop k v o) = if has_prop o k then keys o else keys o ++ [k].
Proof.
  unfold has_prop.
  induction o as [|[k' v'] o IH]; [reflexivity|].
  cbn [set_prop get_prop].
  destruct (String.eqb_spec k' k) as [->|Hne]; [reflexivity|].
  cbn [keys map fst]. fold (keys (set_prop k v o)). rewrite IH.
  now destruct (get_prop o k).
Qed.

Lemma set_prop_distinct (k : string) (v : value) (o : object) :
  distinct_keys o -> distinct_keys (set_prop k v o).
Proof.
  unfold distinct_keys. intros Ho. rewrite keys_set_prop. unfold has_prop.
  destruct (get_prop o k) eqn:E; [exact Ho|].
  apply NoDup_app. repeat split; [exact Ho| |apply NoDup_singleton].
  intros x Hx Hx'. apply list_elem_of_singleton in Hx'. subst x.
  now apply get_prop_None_keys in E.
Qed.

Lemma assign_distinct_keys (base c : object) :
  distinct_keys base -> distinct_keys (assign base c).
Proof.
  revert base. induction c as [|[k v] c IH]; intros base Hb; [exact Hb|].
  apply IH. now apply set_prop_distinct.
Qed.

(** Assigning never moves or renames the first property. *)
Lemma assign_head (k : string) (v : value) (base c : object) :
  exists x rest, assign ((k, v) :: base) c = (k, x) :: rest.
Proof.
  revert v base. induction c as [|[k' v'] c IH]; intros v base.
  - now exists v, base.
  - unfold assign. cbn [fold_left fst snd set_prop].
    destruct (String.eqb_spec k k') as [<-|_]; apply IH.
Qed.

Lemma assign_same_head (k : string) (v x : value) (rest : object) :
  distinct_keys ((k, x) :: rest) ->
  assign [(k, v)] ((k, x) :: rest) = (k, x) :: rest.
Proof.
  intros Hd. unfold assign. cbn [fold_left fst snd set_prop].
  rewrite String.eqb_refl.
  apply (assign_distinct [(k, x)] rest). exact Hd.
Qed.

(** Building [{ k: v, ...c }] a second time over its own result changes
    nothing. *)
Lemma assign_idempotent (k : string) (v v' : value) (c : object) :
  assign [(k, v')] (assign [(k, v)] c) = assign [(k, v)] c.
Proof.
  destruct (assign_head k v [] c) as (x & rest & E).
  assert (Hd : distinct_keys (assign [(k, v)] c)).
  { apply assign_distinct_keys. apply NoDup_singleton. }
  rewrite E in Hd |- *. now apply assign_same_head.
Qed.

Lemma get_prop_set_prop (k k' : string) (v : value) (o : object) :
  get_prop (set_prop k v o) k' = if String.eqb k k' then Some v else get_prop o k'.
Proof.
  induction o as [|[k0 v0] o IH]; cbn [set_prop get_prop].
  - reflexivity.
  - destruct (String.eqb_spec k0 k) as [->|Hne]; cbn [get_prop].
    + now destruct (String.eqb k k').
    + rewrite IH. destruct (String.eqb_spec k0 k') as [->|Hne'].
      * destruct (String.eqb_spec k k'); [congruence|reflexivity].
      * reflexivity.
Qed.

(** With distinct names in [c], the properties of [{ ...base, ...c }] are
    those of [c], and those of [base] that [c] does not have. *)
Lemma get_prop_assign (base c : object) (k : string) :
  distinct_keys c ->
  get_prop (assign base c) k
  = match get_prop c k with Some v => Some v | None => get_prop base k end.
Proof.
  revert base. induction c as [|[k' v'] c IH]; intros base Hc; [reflexivity|].
  unfold assign. cbn [fold_left fst snd].
  change (fold_left _ c ?b) with (assign b c).
  unfold distinct_keys in Hc. cbn [keys map fst] in Hc.
  apply NoDup_cons in Hc as [Hk' Hc]. fold (keys c) in Hk', Hc.
  rewrite IH by exact Hc. cbn [get_prop].
  rewrite get_prop_set_prop.
  destruct (String.eqb_spec k' k) as [->|Hne].
  - apply get_prop_None_keys in Hk'. now rewrite Hk'.
  - reflexivity.
Qed.

Lemma find_first_None {A} (p : A -> bool) (l : list A) :
  existsb p l = false -> find_first p l = None.
Proof.
  induction l as [|x l IH]; [reflexivity|]. cbn [existsb find_first].
  destruct (p x); [discriminate|exact IH].
Qed.

Lemma findIndex_from_absent {A} (p : A -> bool) (l : list A) (i : Z) :
  (forall x, In x l -> p x = false) -> findIndex_from p l i = (-1)%Z.
Proof.
  revert i. induction l as [|x l IH]; intros i H; [reflexivity|].
  cbn [findIndex_from]. rewrite (H x (or_introl eq_refl)).
  apply IH. intros y Hy. apply H. now right.
Qed.

(** [l.splice(-1, 1, x)]: the last element is replaced; an empty array
    gets [x] as its only element. *)
Lemma splice_last {A} (x : A) (l : list A) :
  splice (-1) 1 [x] l = take (length l - 1) l ++ [x].
Proof.
  unfold splice. change (-1 <? 0)%Z with true. cbv iota.
  destruct l as [|y l'] eqn:E.
  - reflexivity.
  - rewrite <- E. assert (Hlen : 0 < length l) by (subst l; cbn; lia).
    replace (Z.max (Z.of_nat (length l) + -1) 0) with (Z.of_nat (length l - 1)) by lia.
    replace (Z.of_nat (length l - 1) + Z.min (Z.max 1 0) (Z.of_nat (length l) - Z.of_nat (length l - 1)))%Z
      with (Z.of_nat (length l)) by lia.
    rewrite !Nat2Z.id. now rewrite drop_all.
Qed.

(* ===================================================================== *)
(** * JSON text: reading back what was written *)
(* ===================================================================== *)

Module JsonFacts.
Import Json.

(** ** Strings *)

Lemma parse_escape_char (c : ascii) (rest : string) :
  parse_string_body (escape_char c +:+ rest)
  = cons_char c (parse_string_body rest).
Proof.
  destruct c as [[] [] [] [] [] [] [] []]; reflexivity.
Qed.

Lemma parse_escape (s rest : string) :
  parse_string_body (escape s +:+ String dquote rest) = Parsed (s, rest).
Proof.
  induction s as [|c s IH]; [reflexivity|].
  cbn [escape]. rewrite app_assoc_string, parse_escape_char, IH. reflexivity.
Qed.

Lemma parse_quote (s rest : string) :
  exists body, quote s +:+ rest = String dquote body
               /\ parse_string_body body = Parsed (s, rest).
Proof.
  exists (escape s +:+ String dquote rest). split.
  - unfold quote. now rewrite app_String, app_assoc_string.
  - apply parse_escape.
Qed.

(** ** Numbers *)

Lemma parse_digits_uint (u : uint) (rest : string) :
  ends_number rest = true ->
  parse_digits (NilEmpty.string_of_uint u +:+ rest) = (u, rest).
Proof.
  intros Hrest.
  induction u as [|u IH|u IH|u IH|u IH|u IH|u IH|u IH|u IH|u IH|u IH];
    cbn [NilEmpty.string_of_uint]; rewrite ?app_String;
    try (cbn [parse_digits]; rewrite IH; reflexivity).
  rewrite app_empty_l. destruct rest as [|c r]; [reflexivity|].
  cbn [parse_digits]. cbn [ends_number] in Hrest.
  destruct (digit_of c); [discriminate|reflexivity].
Qed.

Lemma to_uint_no_leading_zero (p : positive) (u : uint) :
  Pos.to_uint p <> D0 u.
Proof.
  intros H.
  assert (Hn : unorm (Pos.to_uint p) = Pos.to_uint p).
  { rewrite <- (DecimalPos.Unsigned.to_of (Pos.to_uint p)).
    now rewrite DecimalPos.Unsigned.of_to. }
  rewrite H, unorm_D0 in Hn.
  unfold unorm in Hn.
  destruct (nzhead u) eqn:E; try discriminate.
  - injection Hn as Hu. subst u.
    now apply (DecimalPos.Unsigned.to_uint_nonzero p).
  - exact (nzhead_nonzero _ _ E).
Qed.

Lemma parse_number_uint (negative : bool) (u : uint) (rest : string) (n : Z) :
  canonical u ->
  ends_number rest = true ->
  Z.of_int (if negative then Neg u else Pos u) = n ->
  negative && (n =? 0)%Z = false ->
  safe_integer n = true ->
  parse_number ((if negative then "-" else "")
                  +:+ NilEmpty.string_of_uint u +:+ rest)
  = Parsed (JNum n, rest).
Proof.
  intros [Hnil Hzero] Hrest Hn Hminus Hsafe.
  assert (Hcont : continues_number rest = false).
  { destruct rest as [|c r]; [reflexivity|]. cbn [ends_number] in Hrest.
    destruct (digit_of c); [discriminate|]. now apply negb_true_iff. }
  assert (Hsign : forall s : string,
    s = NilEmpty.string_of_uint u +:+ rest ->
    match s with
    | String c r => if Ascii.eqb c "-" then (true, r) else (false, s)
    | EmptyString => (false, s)
    end = (false, s)).
  { intros s ->. destruct u; try congruence; reflexivity. }
  unfold parse_number.
  destruct negative.
  - rewrite app_String, app_empty_l. change (Ascii.eqb "-" "-") with true.
    cbv iota. rewrite parse_digits_uint by assumption.
    destruct u as [|u|u|u|u|u|u|u|u|u|u]; try congruence;
      try (cbv zeta; now rewrite Hn, Hcont, Hminus, Hsafe).
    rewrite (Hzero u eq_refl) in Hn |- *.
    cbv zeta. now rewrite Hn, Hcont, Hminus, Hsafe.
  - rewrite app_empty_l, (Hsign _ eq_refl).
    rewrite parse_digits_uint by assumption.
    destruct u as [|u|u|u|u|u|u|u|u|u|u]; try congruence;
      try (cbv zeta; now rewrite Hn, Hcont, Hsafe).
    rewrite (Hzero u eq_refl) in Hn |- *.
    cbv zeta. now rewrite Hn, Hcont, Hsafe.
Qed.

Lemma canonical_to_uint (p : positive) : canonical (Pos.to_uint p).
Proof.
  split; [apply DecimalPos.Unsigned.to_uint_nonnil|].
  intros u' H. now destruct (to_uint_no_leading_zero p u').
Qed.

Lemma parse_number_Z (n : Z) (rest : string) :
  ends_number rest = true ->
  safe_integer n = true ->
  parse_number (string_of_Z n +:+ rest) = Parsed (JNum n, rest).
Proof.
  intros Hrest Hsafe. unfold string_of_Z.
  pose proof (DecimalZ.of_to n) as Hn.
  destruct n as [|p|p]; cbn [Z.to_int NilEmpty.string_of_int] in Hn |- *.
  - apply (parse_number_uint false (D0 Nil)); try assumption; try reflexivity.
    split; [discriminate|]. now intros u' [= <-].
  - apply (parse_number_uint false); try assumption; try reflexivity.
    apply canonical_to_uint.
  - rewrite app_String.
    apply (parse_number_uint true); try assumption; try reflexivity.
    apply canonical_to_uint.
Qed.

(** ** Values *)

Lemma ends_value_number (rest : string) :
  ends_value rest = true -> ends_number rest = true.
Proof.
  destruct rest as [|c r]; [reflexivity|]. cbn [ends_value].
  rewrite !orb_true_iff, !Ascii.eqb_eq. intros [[->| ->]| ->]; reflexivity.
Qed.

Lemma parse_value_number (fuel : nat) (c : ascii) (r : string) :
  Ascii.eqb c "-" || is_digit c = true ->
  parse_value (S fuel) (String c r) = parse_number (String c r).
Proof.
  intros H.
  destruct c as [[] [] [] [] [] [] [] []]; try discriminate H; reflexivity.
Qed.

Lemma string_of_uint_head (u : uint) (rest : string) :
  u <> Nil ->
  exists c r, NilEmpty.string_of_uint u +:+ rest = String c r
              /\ is_digit c = true.
Proof.
  intros Hu. destruct u; try congruence;
    cbn [NilEmpty.string_of_uint]; rewrite app_String; eauto.
Qed.

Lemma string_of_Z_head (n : Z) (rest : string) :
  exists c r, string_of_Z n +:+ rest = String c r
              /\ Ascii.eqb c "-" || is_digit c = true.
Proof.
  unfold string_of_Z.
  destruct n as [|p|p]; cbn [Z.to_int NilEmpty.string_of_int].
  - exists "0"%char, rest. split; reflexivity.
  - destruct (string_of_uint_head (Pos.to_uint p) rest) as (c & r & -> & Hc);
      [apply DecimalPos.Unsigned.to_uint_nonnil|].
    exists c, r. split; [reflexivity|]. rewrite Hc. apply orb_true_r.
  - rewrite app_String. eexists _, _. split; reflexivity.
Qed.

Lemma parse_value_JNum (fuel : nat) (n : Z) (rest : string) :
  ends_value rest = true ->
  safe_integer n = true ->
  parse_value (S fuel) (string_of_Z n +:+ rest) = Parsed (JNum n, rest).
Proof.
  intros Hrest Hsafe.
  destruct (string_of_Z_head n rest) as (c & r & E & Hc).
  rewrite <- (parse_number_Z n rest)
    by (try apply ends_value_number; assumption).
  rewrite E. now apply parse_value_number.
Qed.

Lemma parse_value_JStr (fuel : nat) (s rest : string) :
  parse_value (S fuel) (quote s +:+ rest) = Parsed (JStr s, rest).
Proof.
  destruct (parse_quote s rest) as (body & -> & Hbody).
  change (parse_value (S fuel) (String dquote body))
    with (and_then (parse_string_body body)
                   (fun '(str, rest) => Parsed (JStr str, rest))).
  now rewrite Hbody.
Qed.

Lemma opens_value_char (c : ascii) (r : string) :
  is_ws c = false -> Ascii.eqb "]" c = false -> opens_value (String c r).
Proof.
  intros Hws Hc. unfold opens_value. cbn [skip_ws]. rewrite Hws.
  cbn [strip_prefix]. now rewrite Hc.
Qed.

Lemma stringify_opens (v : value) (rest : string) :
  opens_value (stringify v +:+ rest).
Proof.
  destruct v as [|[]|n| |s|l|m]; cbn [stringify]; rewrite ?app_String;
    try (apply opens_value_char; reflexivity).
  - destruct (string_of_Z_head n rest) as (c & r & -> & Hc).
    apply opens_value_char;
      destruct c as [[] [] [] [] [] [] [] []]; try discriminate Hc; reflexivity.
Qed.

(** ** Reading back a written value *)

Lemma after_member_more {A} (close : ascii) (x : A) (s : string)
    (more : string -> reading (list A * string)) :
  after_member close x (String "," s) more
  = and_then (more s) (fun '(xs, rest) => Parsed (x :: xs, rest)).
Proof. reflexivity. Qed.

Lemma parse_elements_reads_back (l : list value) :
  Forall reads_back l -> l <> [] ->
  forall fuel rest,
    sizes l <= fuel -> forallb well_formed l = true ->
    forallb carried l = true ->
    parse_elements fuel (join "," (map stringify l) +:+ String "]" rest)
    = Parsed (l, rest).
Proof.
  induction 1 as [|x xs Hx Hxs IH]; [congruence|].
  intros _ fuel rest Hfuel Hwf Hc.
  cbn [sizes fold_right] in Hfuel. fold (sizes xs) in Hfuel.
  cbn [forallb] in Hwf, Hc.
  apply andb_true_iff in Hwf as [Hwx Hwxs].
  apply andb_true_iff in Hc as [Hcx Hcxs].
  destruct fuel as [|fuel]; [lia|].
  cbn [parse_elements].
  destruct xs as [|y ys].
  - cbn [map join].
    rewrite (Hx fuel (String "]" rest));
      [reflexivity|lia|assumption|assumption|reflexivity].
  - change (join "," (map stringify (x :: y :: ys)))
      with (stringify x +:+ "," +:+ join "," (map stringify (y :: ys))).
    rewrite !app_assoc_string, app_String, app_empty_l.
    rewrite (Hx fuel); [|lia|assumption|assumption|reflexivity].
    cbn [and_then]. rewrite after_member_more.
    rewrite IH; [reflexivity|discriminate|lia|assumption|assumption].
Qed.

Lemma parse_members_reads_back (m : object) :
  Forall (fun kv => reads_back (snd kv)) m -> m <> [] ->
  forall fuel rest,
    member_sizes m <= fuel ->
    forallb (fun kv => well_formed (snd kv)) m = true ->
    forallb (fun kv => carried (snd kv)) m = true ->
    parse_members fuel (join "," (map (member stringify) m) +:+ String "}" rest)
    = Parsed (m, rest).
Proof.
  induction 1 as [|[k v] kvs Hv Hkvs IH]; [congruence|].
  intros _ fuel rest Hfuel Hwf Hc.
  cbn [member_sizes fold_right snd] in Hfuel. fold (member_sizes kvs) in Hfuel.
  cbn [forallb snd] in Hwf, Hc.
  apply andb_true_iff in Hwf as [Hwv Hwkvs].
  apply andb_true_iff in Hc as [Hcv Hckvs].
  cbn [snd] in Hv.
  destruct fuel as [|fuel]; [lia|].
  assert (Hmember : forall tail,
    ends_value tail = true ->
    parse_members (S fuel) (member stringify (k, v) +:+ tail)
    = after_member "}" (k, v) tail (parse_members fuel)).
  { intros tail Ht. unfold member. cbn [fst snd].
    rewrite !app_assoc_string.
    destruct (parse_quote k (":" +:+ stringify v +:+ tail)) as (body & -> & Hb).
    cbn [parse_members].
    change (skip_ws (String dquote body)) with (String dquote body).
    change (strip_prefix (String dquote "") (String dquote body))
      with (Some body).
    cbv iota. rewrite Hb. cbn [and_then].
    rewrite app_String, app_empty_l.
    change (strip_prefix ":" (skip_ws (String ":" ?r))) with (Some r).
    cbv iota.
    rewrite (Hv fuel tail); [reflexivity|lia|assumption|assumption|assumption]. }
  destruct kvs as [|kv' kvs'].
  - cbn [map join]. rewrite Hmember by reflexivity. reflexivity.
  - change (join "," (map (member stringify) ((k, v) :: kv' :: kvs')))
      with (member stringify (k, v)
              +:+ "," +:+ join "," (map (member stringify) (kv' :: kvs'))).
    rewrite !app_assoc_string, app_String, app_empty_l.
    rewrite Hmember by reflexivity. rewrite after_member_more.
    rewrite IH; [reflexivity|discriminate|lia|assumption|assumption].
Qed.

Lemma size_positive (v : value) : 1 <= size v.
Proof. destruct v; cbn [size]; lia. Qed.

Lemma parse_value_reads_back (v : value) : reads_back v.
Proof.
  induction v as [|b|n| |s|l IH|m IH] using value_ind;
    intros fuel rest Hfuel Hwf Hc Hrest;
    (destruct fuel as [|fuel];
     [match type of Hfuel with
      | size ?v <= 0 => pose proof (size_positive v)
      end; lia|]).
  - reflexivity.
  - destruct b; reflexivity.
  - now apply parse_value_JNum.
  - discriminate Hc.
  - apply parse_value_JStr.
  - cbn [stringify]. rewrite !app_assoc_string, app_String, app_empty_l.
    cbn [size] in Hfuel. fold (sizes l) in Hfuel.
    cbn [well_formed] in Hwf. cbn [carried] in Hc.
    change (parse_value (S fuel) (String "[" ?r))
      with (match strip_prefix "]" (skip_ws r) with
            | Some rest => Parsed (JArr [], rest)
            | None =>
                and_then (parse_elements fuel r)
                         (fun '(l, rest) => Parsed (JArr l, rest))
            end).
    destruct l as [|x xs]; [reflexivity|].
    assert (Hopen : opens_value
      (join "," (map stringify (x :: xs)) +:+ "]" +:+ rest)).
    { cbn [map]. destruct xs as [|y ys]; cbn [join map];
        rewrite ?app_assoc_string; apply stringify_opens. }
    destruct Hopen as [-> _].
    change ("]" +:+ rest) with (String "]" rest).
    rewrite (parse_elements_reads_back (x :: xs));
      [reflexivity|assumption|discriminate|lia|assumption|assumption].
  - cbn [stringify]. rewrite !app_assoc_string, app_String, app_empty_l.
    cbn [size] in Hfuel. fold (member_sizes m) in Hfuel.
    cbn [well_formed] in Hwf. apply andb_true_iff in Hwf as [Hnd Hwf].
    cbn [carried] in Hc.
    apply bool_decide_eq_true in Hnd.
    change (parse_value (S fuel) (String "{" ?r))
      with (match strip_prefix "}" (skip_ws r) with
            | Some rest => Parsed (JObj [], rest)
            | None =>
                and_then (parse_members fuel r)
                         (fun '(m, rest) => Parsed (JObj (assign [] m), rest))
            end).
    destruct m as [|[k v] kvs]; [reflexivity|].
    assert (Hopen : strip_prefix "}"
      (skip_ws (join "," (map (member stringify) ((k, v) :: kvs))
                  +:+ "}" +:+ rest)) = None).
    { cbn [map]. destruct kvs as [|kv' kvs']; cbn [join map];
        unfold member at 1; unfold quote; cbn [fst];
        rewrite ?app_assoc_string, ?app_String; reflexivity. }
    rewrite Hopen.
    change ("}" +:+ rest) with (String "}" rest).
    rewrite (parse_members_reads_back ((k, v) :: kvs));
      [|assumption|discriminate|lia|assumption|assumption].
    cbn [and_then]. now rewrite assign_nil_distinct.
Qed.

(** ** The length of the text is enough fuel *)

Lemma sizes_le_length (l : list value) :
  Forall (fun v => size v <= String.length (stringify v)) l ->
  sizes l <= S (String.length (join "," (map stringify l))).
Proof.
  induction 1 as [|x xs Hx Hxs IH]; [cbn; lia|].
  cbn [sizes fold_right]. fold (sizes xs).
  destruct xs as [|y ys].
  - cbn [sizes fold_right map join]. lia.
  - change (join "," (map stringify (x :: y :: ys)))
      with (stringify x +:+ "," +:+ join "," (map stringify (y :: ys))).
    rewrite !length_app_string. cbn [String.length]. lia.
Qed.

Lemma member_sizes_le_length (m : object) :
  Forall (fun kv => size (snd kv) <= String.length (stringify (snd kv))) m ->
  member_sizes m <= S (String.length (join "," (map (member stringify) m))).
Proof.
  induction 1 as [|[k v] kvs Hv Hkvs IH]; [cbn; lia|].
  cbn [member_sizes fold_right snd]. fold (member_sizes kvs). cbn [snd] in Hv.
  assert (Hmember : size v < String.length (member stringify (k, v))).
  { unfold member. cbn [fst snd]. rewrite !length_app_string.
    cbn [String.length]. lia. }
  destruct kvs as [|kv' kvs'].
  - cbn [member_sizes fold_right map join]. lia.
  - change (join "," (map (member stringify) ((k, v) :: kv' :: kvs')))
      with (member stringify (k, v)
              +:+ "," +:+ join "," (map (member stringify) (kv' :: kvs'))).
    rewrite !length_app_string. cbn [String.length]. lia.
Qed.

Lemma size_le_length (v : value) : size v <= String.length (stringify v).
Proof.
  induction v as [|b|n| |s|l IH|m IH] using value_ind.
  - cbn; lia.
  - destruct b; cbn; lia.
  - cbn [size stringify].
    destruct (string_of_Z_head n "") as (c & r & E & _).
    rewrite app_empty_r in E. rewrite E. cbn [String.length]. lia.
  - cbn; lia.
  - cbn [size stringify]. unfold quote. cbn [String.length]. lia.
  - cbn [size stringify]. fold (sizes l).
    pose proof (sizes_le_length l IH).
    rewrite !length_app_string. cbn [String.length]. lia.
  - cbn [size stringify]. fold (member_sizes m).
    pose proof (member_sizes_le_length m IH).
    rewrite !length_app_string. cbn [String.length]. lia.
Qed.

(** [JSON.parse(JSON.stringify(v))] is [v], for a value that JSON
    carries. *)
Lemma parse_stringify (v : value) :
  well_formed v = true -> carried v = true ->
  parse (stringify v) = Parsed v.
Proof.
  intros Hwf Hc. unfold parse.
  pose proof (parse_value_reads_back v
                (S (2 * String.length (stringify v))) ""
                ltac:(pose proof (size_le_length v); lia) Hwf Hc eq_refl) as H.
  rewrite app_empty_r in H. now rewrite H.
Qed.

End JsonFacts.

Import JsonFacts.

(* ===================================================================== *)
(** * The actions *)
(* ===================================================================== *)

(** Runs the sequencing of an action down to the world it builds. *)
Ltac run :=
  cbv [mbind mret action_bind action_ret bind ret throw try_catch detached
       commit get_state get_rootState localStorage_getItem
       localStorage_setItem console_write
       actions.axios actions.new_uuid actions.saveLocalCalendars
       actions.setLocalCalendars];
  cbn [fst snd store root localStorage requests generated console
       localCalendars apiCalendars calendar token apiUrl].

(** ** deleteCalendar *)

(** C4: [deleteCalendar] resolves whatever the server answers to the DELETE
    request; the local list is filtered by uuid, so no calendar left in it
    has the uuid of the deleted one, and the filtered list is what local
    storage holds afterwards. *)
Theorem deleteCalendar_removes_locally
    (server : list request -> request -> reply) (c : object) (w : world) :
  let w' := snd (actions.deleteCalendar server c w) in
  fst (actions.deleteCalendar server c w) = Resolved undefined
  /\ localCalendars (store w')
     = List.filter
         (fun c' => negb (strict_eq (get_prop c' "uuid") (get_prop c "uuid")))
         (localCalendars (store w))
  /\ (forall c', In c' (localCalendars (store w')) ->
        strict_eq (get_prop c' "uuid") (get_prop c "uuid") = false)
  /\ (strict_eq (get_prop c "uuid") (get_prop c "uuid") = true ->
      ~ In c (localCalendars (store w')))
  /\ localStorage w' !! "calendars"
     = Some (Json.stringify (JArr (map JObj (localCalendars (store w')))))
  /\ requests w'
     = requests w
       ++ [Request DELETE
             (apiUrl (root w) +:+ "/calendars/" +:+ template (get_prop c "uuid"))
             undefined (bearer (token (root w)))].
Proof.
  unfold actions.deleteCalendar. run.
  destruct (server _ _); cbn [fst snd store localStorage requests localCalendars
                              mutations.removeLocalCalendar].
  all: repeat split; try apply lookup_insert_eq.
  all: try (intros c' Hc'; apply filter_In in Hc' as [_ Hc'];
            now apply negb_true_iff).
  all: intros Hrefl Hc; apply filter_In in Hc as [_ Hc];
       rewrite Hrefl in Hc; discriminate Hc.
Qed.

(** ** togglePrivacy *)

(** C5: for a uuid that no calendar of the API list has, [togglePrivacy]
    rejects with the reason "Calendar not found" and leaves the whole world
    as it was: no request is issued, the store is unchanged. *)
Theorem togglePrivacy_unknown_uuid
    (server : list request -> request -> reply) (uuid : jsval) (w : world) :
  getters.UuidApiCalendarsExist (store w) uuid = false ->
  actions.togglePrivacy server uuid w
  = (Rejected (Reason (JStr "Calendar not found")), w).
Proof.
  intros Habsent. unfold actions.togglePrivacy. run.
  now rewrite (find_first_None _ _ Habsent).
Qed.

Lemma togglePrivacy_unknown_uuid_witness :
  let w := fresh_world (Some (JStr "t")) []
             [[("uuid", JStr "x"); ("is_public", JBool false)]] in
  getters.UuidApiCalendarsExist (store w) (Some (JStr "y")) = false
  /\ actions.togglePrivacy echo (Some (JStr "y")) w
     = (Rejected (Reason (JStr "Calendar not found")), w).
Proof.
  split; [reflexivity|].
  apply (togglePrivacy_unknown_uuid echo). reflexivity.
Defined.

(** ** createCalendar *)

(** C1, as the code has it: with a token, a POST that fails is caught inside
    the action.  The error goes to the console, the promise resolves with
    [undefined], and nothing but the list of issued requests and the console
    changes. *)
Theorem createCalendar_api_failure_is_swallowed
    (server : list request -> request -> reply) (uuidv4 : nat -> string)
    (c : object) (w : world) (message : string) :
  let post := Request POST (apiUrl (root w) +:+ "/calendars") (Some (JObj c))
                      (bearer (token (root w))) in
  truthy (token (root w)) = true ->
  server (requests w) post = Failure message ->
  actions.createCalendar server uuidv4 c w
  = (Resolved undefined,
     World (store w) (root w) (localStorage w) (requests w ++ [post])
           (generated w) (console w ++ [console_error (AxiosError message)])).
Proof.
  intros post Htoken Hfail. unfold actions.createCalendar. run.
  rewrite Htoken. cbn [negb]. fold post. now rewrite Hfail.
Qed.

Lemma createCalendar_api_failure_is_swallowed_witness :
  let w := fresh_world (Some (JStr "t")) [] [] in
  let c := [("name", JStr "A")] in
  actions.createCalendar offline counter_uuid c w
  = (Resolved undefined,
     World (store w) (root w) (localStorage w)
           [Request POST "https://api.test/calendars" (Some (JObj c)) "Bearer t"]
           0 [console_error (AxiosError "Network Error")]).
Proof.
  exact (createCalendar_api_failure_is_swallowed offline counter_uuid
           [("name", JStr "A")] (fresh_world (Some (JStr "t")) [] [])
           "Network Error" eq_refl eq_refl).
Defined.

(** C1, as stated, fails: the POST fails and the promise is not rejected. *)
Lemma createCalendar_api_failure_not_rejected :
  let w := fresh_world (Some (JStr "t")) [] [] in
  let c := [("name", JStr "A")] in
  truthy (token (root w)) = true
  /\ offline (requests w)
       (Request POST "https://api.test/calendars" (Some (JObj c)) "Bearer t")
     = Failure "Network Error"
  /\ fst (actions.createCalendar offline counter_uuid c w) = Resolved undefined
  /\ ~ (exists e, fst (actions.createCalendar offline counter_uuid c w)
                  = Rejected e).
Proof.
  repeat split. intros [e He]. discriminate He.
Qed.




(** ** saveSharedCalendar *)

Lemma saveSharedCalendar_run (uuidv4 : nat -> string) (shared : object)
    (w : world) :
  let copy := assign [("uuid", JStr (uuidv4 (generated w)))] shared in
  actions.saveSharedCalendar uuidv4 shared w
  = (Resolved undefined,
     World (mutations.addLocalCalendar (store w) copy) (root w)
           (<["calendars" :=
                Json.stringify
                  (JArr (map JObj (localCalendars (store w) ++ [copy])))]>
              (localStorage w))
           (requests w) (S (generated w)) (console w)).
Proof. reflexivity. Qed.

(** C3, at a shared calendar that has a uuid: whatever the generator
    returns, the copy that is appended and persisted carries the uuid of
    the input, not the generated one, which is overwritten when the
    properties of the input are spread over it.  The same holds of every
    shared calendar that has a uuid property. *)
Theorem saveSharedCalendar_keeps_input_uuid (uuidv4 : nat -> string) (w : world) :
  let shared := [("uuid", JStr "x"); ("name", JStr "A")] in
  let w' := snd (actions.saveSharedCalendar uuidv4 shared w) in
  localCalendars (store w') = localCalendars (store w) ++ [shared]
  /\ localStorage w' !! "calendars"
     = Some (Json.stringify (JArr (map JObj (localCalendars (store w) ++ [shared]))))
  /\ (forall (c : object) (v : value),
        distinct_keys c -> get_prop c "uuid" = Some v ->
        exists copy,
          localCalendars (store (snd (actions.saveSharedCalendar uuidv4 c w)))
          = localCalendars (store w) ++ [copy]
          /\ get_prop copy "uuid" = Some v).
Proof.
  intros shared w'. subst w'. rewrite saveSharedCalendar_run.
  cbn [snd store localStorage mutations.addLocalCalendar localCalendars].
  split; [reflexivity|]. split; [apply lookup_insert_eq|].
  intros c v Hd Hv. rewrite saveSharedCalendar_run.
  cbn [snd store mutations.addLocalCalendar localCalendars].
  eexists. split; [reflexivity|].
  rewrite get_prop_assign by exact Hd. now rewrite Hv.
Qed.

(** ** updateCalendar *)

Lemma for_each_section_id (l : list value) (w : world) :
  Forall (fun s => s <> JNull) l ->
  for_each section_id l w = (Resolved (map id_on_wire l), w).
Proof.
  induction 1 as [|s l Hs Hl IH]; [reflexivity|].
  cbn [for_each map]. run. fold (@for_each value value).
  assert (Hstep : section_id s w = (Resolved (id_on_wire s), w))
    by (destruct s; congruence || reflexivity).
  now rewrite Hstep, IH.
Qed.

Lemma updateCalendar_local
    (server : list request -> request -> reply) (c : object) (w : world) :
  truthy (get_prop c "fromApi") = false ->
  actions.updateCalendar server c w
  = (Resolved undefined,
     World (mutations.updateLocalCalendar (store w) c) (root w)
           (<["calendars" :=
                Json.stringify
                  (JArr (map JObj (localCalendars
                                     (mutations.updateLocalCalendar (store w) c))))]>
              (localStorage w))
           (requests w) (generated w) (console w)).
Proof.
  intros Hlocal. unfold actions.updateCalendar. rewrite Hlocal. now run.
Qed.

Lemma updateCalendar_put_fails
    (server : list request -> request -> reply) (c : object) (w : world)
    (message : string) :
  truthy (get_prop c "fromApi") = true ->
  server (requests w) (put_calendar (root w) c) = Failure message ->
  actions.updateCalendar server c w
  = (Resolved undefined,
     World (store w) (root w) (localStorage w)
           (requests w ++ [put_calendar (root w) c]) (generated w)
           (console w ++ [console_error (AxiosError message)])).
Proof.
  intros Hapi Hput. unfold actions.updateCalendar. rewrite Hapi.
  cbn [negb]. run.
  fold (put_calendar (root w) c). now rewrite Hput.
Qed.

Lemma updateCalendar_api
    (server : list request -> request -> reply) (c : object) (w : world)
    (data : value) (sections : list value) :
  truthy (get_prop c "fromApi") = true ->
  server (requests w) (put_calendar (root w) c) = Reply data ->
  get_prop c "sections" = Some (JArr sections) ->
  Forall (fun s => s <> JNull) sections ->
  let post := post_sections (root w) c (map id_on_wire sections) in
  actions.updateCalendar server c w
  = match server (requests w ++ [put_calendar (root w) c]) post with
    | Reply _ =>
        (Resolved (Some data),
         World (store w) (root w) (localStorage w)
               (requests w ++ [put_calendar (root w) c; post])
               (generated w) (console w))
    | Failure message =>
        (Resolved undefined,
         World (store w) (root w) (localStorage w)
               (requests w ++ [put_calendar (root w) c; post])
               (generated w)
               (console w ++ [console_error (AxiosError message)]))
    end.
Proof.
  intros Hapi Hput Hsections Hids post. unfold actions.updateCalendar.
  rewrite Hapi. cbn [negb]. run. fold (put_calendar (root w) c). rewrite Hput.
  rewrite Hsections. cbn [section_ids].
  rewrite (for_each_section_id _ _ Hids).
  cbn [fst snd store root localStorage requests generated console
       token apiUrl].
  fold (post_sections (root w) c (map id_on_wire sections)). fold post.
  rewrite <- app_assoc. cbn [app].
  now destruct (server _ post).
Qed.

Lemma for_each_section_id_null (l : list value) (w : world) :
  In JNull l ->
  for_each section_id l w
  = (Rejected (TypeError "Cannot read properties of null"), w).
Proof.
  induction l as [|s l IH]; [intros []|]. intros Hin.
  cbn [for_each]. run. fold (@for_each value value).
  destruct s; try reflexivity;
    (destruct Hin as [E|Hin]; [discriminate E|]);
    cbn [section_id]; run; now rewrite (IH Hin).
Qed.

(** The elements of an array have a [null] among them, or none is. *)
Lemma null_or_none (l : list value) :
  In JNull l \/ Forall (fun s => s <> JNull) l.
Proof.
  induction l as [|s l [IH|IH]].
  - right. constructor.
  - left. now right.
  - destruct s; try (right; constructor; [discriminate|exact IH]).
    left. now left.
Qed.

Lemma section_ids_rejects (sections : jsval) (w : world) :
  (forall l, sections = Some (JArr l) -> In JNull l) ->
  exists message, section_ids sections w = (Rejected (TypeError message), w).
Proof.
  intros H. destruct sections as [[| | | | |l|]|];
    try (eexists; reflexivity).
  cbn [section_ids]. rewrite (for_each_section_id_null l w (H l eq_refl)).
  now eexists.
Qed.

Lemma updateCalendar_sections_fail
    (server : list request -> request -> reply) (c : object) (w : world)
    (data : value) :
  truthy (get_prop c "fromApi") = true ->
  server (requests w) (put_calendar (root w) c) = Reply data ->
  (forall l, get_prop c "sections" = Some (JArr l) -> In JNull l) ->
  exists message,
    actions.updateCalendar server c w
    = (Resolved undefined,
       World (store w) (root w) (localStorage w)
             (requests w ++ [put_calendar (root w) c]) (generated w)
             (console w ++ [console_error (TypeError message)])).
Proof.
  intros Hapi Hput Hsections. unfold actions.updateCalendar. rewrite Hapi.
  cbn [negb]. run. fold (put_calendar (root w) c). rewrite Hput.
  match goal with
  | |- context [section_ids ?s ?w1] =>
      destruct (section_ids_rejects s w1 Hsections) as [message ->]
  end.
  now exists message.
Qed.

(** C6, as the code has it.  For a calendar whose [fromApi] is falsy no
    request is issued: [updateLocalCalendar] is committed, which splices the
    calendar into the local list at the index [findIndex] gives for its
    [uid], and the resulting list is persisted.  Otherwise the PUT goes
    first.  When it fails nothing follows it.  When it succeeds and
    [sections] is an array without [null], one POST of the section ids
    follows; with both requests answered the action resolves with the data
    of the PUT, whatever the POST was answered with.  When the PUT succeeds
    and [sections] is no such array, no POST is issued.  In each case of
    failure the error is written with [console.error], the action resolves
    with [undefined], and the store and local storage stay as they were. *)
Theorem updateCalendar_requests
    (server : list request -> request -> reply) (c : object) (w : world) :
  let put := put_calendar (root w) c in
  let L := localCalendars (store w) in
  let L' :=
    splice (findIndex (fun c' => strict_eq (get_prop c' "uid") (get_prop c "uid")) L)
           1 [c] L in
  (truthy (get_prop c "fromApi") = false ->
     actions.updateCalendar server c w
     = (Resolved undefined,
        World (State L' (apiCalendars (store w)) (calendar (store w))) (root w)
              (<["calendars" := Json.stringify (JArr (map JObj L'))]>
                 (localStorage w))
              (requests w) (generated w) (console w)))
  /\ (forall message,
        truthy (get_prop c "fromApi") = true ->
        server (requests w) put = Failure message ->
        actions.updateCalendar server c w
        = (Resolved undefined,
           World (store w) (root w) (localStorage w) (requests w ++ [put])
                 (generated w)
                 (console w ++ [console_error (AxiosError message)])))
  /\ (forall data sections data',
        let post := post_sections (root w) c (map id_on_wire sections) in
        truthy (get_prop c "fromApi") = true ->
        server (requests w) put = Reply data ->
        get_prop c "sections" = Some (JArr sections) ->
        Forall (fun s => s <> JNull) sections ->
        server (requests w ++ [put]) post = Reply data' ->
        actions.updateCalendar server c w
        = (Resolved (Some data),
           World (store w) (root w) (localStorage w)
                 (requests w ++ [put; post]) (generated w) (console w)))
  /\ (forall data sections message,
        let post := post_sections (root w) c (map id_on_wire sections) in
        truthy (get_prop c "fromApi") = true ->
        server (requests w) put = Reply data ->
        get_prop c "sections" = Some (JArr sections) ->
        Forall (fun s => s <> JNull) sections ->
        server (requests w ++ [put]) post = Failure message ->
        actions.updateCalendar server c w
        = (Resolved undefined,
           World (store w) (root w) (localStorage w)
                 (requests w ++ [put; post]) (generated w)
                 (console w ++ [console_error (AxiosError message)])))
  /\ (forall data,
        truthy (get_prop c "fromApi") = true ->
        server (requests w) put = Reply data ->
        (forall sections,
           get_prop c "sections" = Some (JArr sections) -> In JNull sections) ->
        exists message,
          actions.updateCalendar server c w
          = (Resolved undefined,
             World (store w) (root w) (localStorage w) (requests w ++ [put])
                   (generated w)
                   (console w ++ [console_error (TypeError message)]))).
Proof.
  intros put L L'. split; [|split; [|split; [|split]]].
  - intros Hlocal. now rewrite (updateCalendar_local server c w Hlocal).
  - intros message Hapi Hput.
    now rewrite (updateCalendar_put_fails server c w message Hapi Hput).
  - intros data sections data' post Hapi Hput Hsections Hids Hpost.
    rewrite (updateCalendar_api server c w data sections Hapi Hput Hsections Hids).
    fold put post. now rewrite Hpost.
  - intros data sections message post Hapi Hput Hsections Hids Hpost.
    rewrite (updateCalendar_api server c w data sections Hapi Hput Hsections Hids).
    fold put post. now rewrite Hpost.
  - intros data Hapi Hput Hsections.
    exact (updateCalendar_sections_fail server c w data Hapi Hput Hsections).
Qed.

Lemma updateCalendar_requests_witness :
  let w := fresh_world (Some (JStr "t")) two_calendars [] in
  let put := put_calendar (root w) api_calendar in
  let post := post_sections (root w) api_calendar [JNum 7] in
  let c := [("uuid", JStr "b"); ("uid", JNum 2); ("name", JStr "B")] in
  (fst (actions.updateCalendar echo c w) = Resolved undefined
   /\ requests (snd (actions.updateCalendar echo c w)) = []
   /\ localCalendars (store (snd (actions.updateCalendar echo c w)))
      = [[("uuid", JStr "a"); ("uid", JNum 1)]; c])
  /\ actions.updateCalendar offline api_calendar w
     = (Resolved undefined,
        World (store w) (root w) (localStorage w) [put] 0
              [console_error (AxiosError "Network Error")])
  /\ actions.updateCalendar echo api_calendar w
     = (Resolved (Some (JObj api_calendar)),
        World (store w) (root w) (localStorage w) [put; post] 0 [])
  /\ actions.updateCalendar put_only api_calendar w
     = (Resolved undefined,
        World (store w) (root w) (localStorage w) [put; post] 0
              [console_error
                 (AxiosError "Request failed with status code 500")])
  /\ (exists message,
        actions.updateCalendar echo api_calendar_without_sections w
        = (Resolved undefined,
           World (store w) (root w) (localStorage w)
                 [put_calendar (root w) api_calendar_without_sections] 0
                 [console_error (TypeError message)]))
  /\ (exists message,
        actions.updateCalendar echo api_calendar_with_hole w
        = (Resolved undefined,
           World (store w) (root w) (localStorage w)
                 [put_calendar (root w) api_calendar_with_hole] 0
                 [console_error (TypeError message)])).
Proof.
  intros w put post c.
  assert (Hids : Forall (fun s => s <> JNull) [JObj [("id", JNum 7)]])
    by (repeat constructor; discriminate).
  destruct (updateCalendar_requests echo c w) as (Hlocal & _).
  destruct (updateCalendar_requests offline api_calendar w) as (_ & Hfail & _).
  destruct (updateCalendar_requests echo api_calendar w) as (_ & _ & Hok & _).
  destruct (updateCalendar_requests put_only api_calendar w)
    as (_ & _ & _ & Hpost & _).
  destruct (updateCalendar_requests echo api_calendar_without_sections w)
    as (_ & _ & _ & _ & Hnone).
  destruct (updateCalendar_requests echo api_calendar_with_hole w)
    as (_ & _ & _ & _ & Hhole).
  split; [|split; [|split; [|split; [|split]]]].
  - rewrite (Hlocal eq_refl). repeat split.
  - exact (Hfail "Network Error" eq_refl eq_refl).
  - exact (Hok (JObj api_calendar) [JObj [("id", JNum 7)]]
               (JObj [("sections", JArr [JNum 7])]) eq_refl eq_refl eq_refl
               Hids eq_refl).
  - exact (Hpost (JObj api_calendar) [JObj [("id", JNum 7)]]
                 "Request failed with status code 500" eq_refl eq_refl
                 eq_refl Hids eq_refl).
  - apply (Hnone (JObj api_calendar_without_sections) eq_refl eq_refl).
    intros sections Hs. discriminate Hs.
  - apply (Hhole (JObj api_calendar_with_hole) eq_refl eq_refl).
    intros sections [= <-]. right. now left.
Defined.

(** C6, as stated, fails: the PUT fails and no POST follows it. *)
Lemma updateCalendar_put_failure_no_post :
  let w := fresh_world (Some (JStr "t")) [] [] in
  truthy (get_prop api_calendar "fromApi") = true
  /\ requests (snd (actions.updateCalendar offline api_calendar w))
     = [put_calendar (root w) api_calendar]
  /\ fst (actions.updateCalendar offline api_calendar w) = Resolved undefined
  /\ ~ (exists put post,
          requests (snd (actions.updateCalendar offline api_calendar w))
          = [put; post]).
Proof.
  repeat split. intros (put & post & H). discriminate H.
Qed.

(** ** addUuidToCalendars *)

Lemma migrated_settled (c c1 : object) : migrated c c1 -> settled c1.
Proof.
  unfold migrated, settled. destruct (truthy (get_prop c "uuid")) eqn:E.
  - intros -> Hfalse. congruence.
  - intros [u ->] _ u'. apply assign_idempotent.
Qed.

Lemma ensure_uuid_run (uuidv4 : nat -> string) (c : object)
    (st : state) (rs : rootState) (ls : gmap string string)
    (rq : list request) (g : nat) (cs : list console_line) :
  exists c1 g',
    actions.ensure_uuid uuidv4 c (World st rs ls rq g cs)
    = (Resolved c1, World st rs ls rq g' cs)
    /\ migrated c c1
    /\ (settled c -> c1 = c).
Proof.
  unfold actions.ensure_uuid, migrated, settled.
  destruct (truthy (get_prop c "uuid")) eqn:E; run.
  - exists c, g. now repeat split.
  - eexists _, (S g). split; [reflexivity|]. split; [eauto|].
    intros Hc. now apply Hc.
Qed.

Lemma for_each_ensure_uuid (uuidv4 : nat -> string) (l : list object)
    (st : state) (rs : rootState) (ls : gmap string string)
    (rq : list request) (g : nat) (cs : list console_line) :
  exists l1 g',
    for_each (actions.ensure_uuid uuidv4) l (World st rs ls rq g cs)
    = (Resolved l1, World st rs ls rq g' cs)
    /\ Forall2 migrated l l1
    /\ (Forall settled l -> l1 = l).
Proof.
  revert g. induction l as [|c l IH]; intros g.
  - exists [], g. split; [reflexivity|]. split; [constructor|reflexivity].
  - destruct (ensure_uuid_run uuidv4 c st rs ls rq g cs)
      as (c1 & g1 & Hc1 & Hm & Hs).
    destruct (IH g1) as (l1 & g' & Hl1 & Hml & Hsl).
    exists (c1 :: l1), g'. split; [|split].
    + cbn [for_each]. run. rewrite Hc1. now rewrite Hl1.
    + now constructor.
    + intros Hall. apply Forall_cons in Hall as [Hc Hl].
      now rewrite (Hs Hc), (Hsl Hl).
Qed.

Lemma addUuidToCalendars_run (uuidv4 : nat -> string) (w : world) :
  exists l1 g',
    actions.addUuidToCalendars uuidv4 w
    = (Resolved undefined,
       World (mutations.setLocalCalendars (store w) l1) (root w)
             (<["calendars" := Json.stringify (JArr (map JObj l1))]>
                (localStorage w))
             (requests w) g' (console w))
    /\ Forall2 migrated (localCalendars (store w)) l1.
Proof.
  destruct w as [st rs ls rq g cs].
  destruct (for_each_ensure_uuid uuidv4 (localCalendars st) st rs ls rq g cs)
    as (l1 & g' & Hrun & Hl1 & _).
  exists l1, g'. split; [|exact Hl1].
  unfold actions.addUuidToCalendars. run. now rewrite Hrun.
Qed.

(** C7: applying [addUuidToCalendars] a second time changes neither the
    store nor local storage, and a calendar that has a uuid property keeps
    the value of it through the migration. *)
Theorem addUuidToCalendars_idempotent (uuidv4 : nat -> string) (w : world) :
  let w1 := snd (actions.addUuidToCalendars uuidv4 w) in
  let w2 := snd (actions.addUuidToCalendars uuidv4 w1) in
  fst (actions.addUuidToCalendars uuidv4 w) = Resolved undefined
  /\ fst (actions.addUuidToCalendars uuidv4 w1) = Resolved undefined
  /\ store w2 = store w1
  /\ localStorage w2 = localStorage w1
  /\ length (localCalendars (store w1)) = length (localCalendars (store w))
  /\ (forall i c v,
        localCalendars (store w) !! i = Some c ->
        distinct_keys c ->
        get_prop c "uuid" = Some v ->
        exists c1, localCalendars (store w1) !! i = Some c1
                   /\ get_prop c1 "uuid" = Some v).
Proof.
  destruct (addUuidToCalendars_run uuidv4 w) as (l1 & g1 & Hrun1 & Hl1).
  intros w1 w2. subst w2 w1. rewrite Hrun1. cbn [fst snd].
  assert (Hsettled : Forall settled l1).
  { apply Forall_forall. intros c1 Hc1.
    apply list_elem_of_lookup in Hc1 as [i Hi].
    destruct (Forall2_lookup_r _ _ _ _ _ Hl1 Hi) as (c & _ & Hc).
    now apply (migrated_settled c). }
  match goal with
  | |- context [actions.addUuidToCalendars uuidv4 ?w1] => set (w1' := w1)
  end.
  destruct (for_each_ensure_uuid uuidv4 l1
              (store w1') (root w1') (localStorage w1') (requests w1')
              (generated w1') (console w1')) as (l2 & g2 & Hrun2 & _ & Hl2).
  rewrite (Hl2 Hsettled) in Hrun2. clear Hl2 l2.
  assert (Hsecond :
    actions.addUuidToCalendars uuidv4 w1'
    = (Resolved undefined,
       World (store w1') (root w1') (localStorage w1') (requests w1')
             g2 (console w1'))).
  { unfold actions.addUuidToCalendars. run.
    change (localCalendars (store w1')) with l1.
    subst w1'. cbn [store root localStorage requests generated console] in *.
    rewrite Hrun2.
    cbn [fst snd store root localStorage requests generated console].
    unfold mutations.setLocalCalendars.
    cbn [localCalendars apiCalendars calendar].
    now rewrite insert_insert_eq. }
  rewrite Hsecond. cbn [fst snd store localStorage].
  repeat split.
  - subst w1'. cbn [store mutations.setLocalCalendars localCalendars].
    symmetry. now apply Forall2_length in Hl1.
  - intros i c v Hi Hd Hv. subst w1'.
    cbn [store mutations.setLocalCalendars localCalendars].
    destruct (Forall2_lookup_l _ _ _ _ _ Hl1 Hi) as (c1 & Hc1 & Hm).
    exists c1. split; [exact Hc1|].
    unfold migrated in Hm. destruct (truthy (get_prop c "uuid")).
    + now subst c1.
    + destruct Hm as [u ->]. rewrite get_prop_assign by exact Hd.
      now rewrite Hv.
Qed.

Lemma addUuidToCalendars_idempotent_witness :
  let w := fresh_world None legacy_calendars [] in
  let w1 := snd (actions.addUuidToCalendars counter_uuid w) in
  let w2 := snd (actions.addUuidToCalendars counter_uuid w1) in
  store w2 = store w1
  /\ localStorage w2 = localStorage w1
  /\ (exists c1, localCalendars (store w1) !! 2 = Some c1
                 /\ get_prop c1 "uuid" = Some (JStr "k")).
Proof.
  intros w w1 w2.
  destruct (addUuidToCalendars_idempotent counter_uuid w)
    as (_ & _ & Hstore & Hstorage & _ & Hkeep).
  split; [exact Hstore|]. split; [exact Hstorage|].
  apply (Hkeep 2 [("uuid", JStr "k")] (JStr "k") eq_refl
               (NoDup_singleton "uuid") eq_refl).
Defined.

(** ** Local storage *)

Lemma as_calendars_objects (l : list object) :
  as_calendars (JArr (map JObj l)) = Some l.
Proof.
  unfold as_calendars. induction l as [|c l IH]; [reflexivity|].
  cbn [map]. cbn [mapM]. rewrite IH. reflexivity.
Qed.

Lemma getLocalCalendars_reads (w : world) (L : list object) :
  localStorage w !! "calendars" = Some (Json.stringify (JArr (map JObj L))) ->
  Json.well_formed (JArr (map JObj L)) = true ->
  Json.carried (JArr (map JObj L)) = true ->
  actions.getLocalCalendars w
  = (Resolved undefined,
     World (State L (apiCalendars (store w)) (calendar (store w))) (root w)
           (localStorage w) (requests w) (generated w) (console w)).
Proof.
  intros Htext Hwf Hc. unfold actions.getLocalCalendars. run.
  rewrite Htext. unfold JSON_parse. cbn [default]. unfold id.
  rewrite (parse_stringify _ Hwf Hc). run.
  now rewrite as_calendars_objects.
Qed.




(** ** updateLocalCalendar *)

(** C10: when no calendar of the local list has a [uid] that is [===] to
    the [uid] of [c], [updateLocalCalendar] puts [c] in the place of the
    last calendar of the list, or makes it the only one of an empty list.
    The search compares [uid]: no [uuid] is read. *)
Theorem updateLocalCalendar_absent_uid (st : state) (c : object) :
  let L := localCalendars st in
  let L' := localCalendars (mutations.updateLocalCalendar st c) in
  (forall c', In c' L ->
     strict_eq (get_prop c' "uid") (get_prop c "uid") = false) ->
  findIndex (fun c' => strict_eq (get_prop c' "uid") (get_prop c "uid")) L
  = (-1)%Z
  /\ L' = take (length L - 1) L ++ [c]
  /\ (L = [] -> L' = [c])
  /\ (forall init e, L = init ++ [e] -> L' = init ++ [c])
  /\ (strict_eq (get_prop c "uid") (get_prop c "uid") = true -> L' <> L)
  /\ apiCalendars (mutations.updateLocalCalendar st c) = apiCalendars st
  /\ calendar (mutations.updateLocalCalendar st c) = calendar st.
Proof.
  intros L L' Habsent.
  assert (Hindex :
    findIndex (fun c' => strict_eq (get_prop c' "uid") (get_prop c "uid")) L
    = (-1)%Z) by now apply findIndex_from_absent.
  assert (HL' : L' = take (length L - 1) L ++ [c]).
  { subst L'. unfold mutations.updateLocalCalendar. cbn [localCalendars].
    fold L. rewrite Hindex. apply splice_last. }
  assert (Hlast : forall init e, L = init ++ [e] -> L' = init ++ [c]).
  { intros init e E. rewrite HL', E. rewrite length_app. cbn [length].
    replace (length init + 1 - 1) with (length init) by lia.
    now rewrite take_app_length. }
  repeat split; try assumption.
  - intros E. now rewrite HL', E.
  - intros Hrefl Hsame.
    assert (Hcases : forall l : list object,
               l = [] \/ exists init e, l = init ++ [e])
      by (intros l; induction l using rev_ind; eauto).
    destruct (Hcases L) as [E|(init & e & E)].
    + rewrite HL', E in Hsame. discriminate Hsame.
    + rewrite (Hlast init e E), E in Hsame.
      apply app_inj_tail in Hsame as [_ <-].
      rewrite Habsent in Hrefl; [discriminate|].
      rewrite E. apply in_or_app. right. now left.
Qed.

Lemma updateLocalCalendar_absent_uid_witness :
  let c := [("uuid", JStr "a"); ("uid", JNum 3)] in
  (forall c', In c' two_calendars ->
     strict_eq (get_prop c' "uid") (get_prop c "uid") = false)
  /\ localCalendars
       (mutations.updateLocalCalendar (State two_calendars [] None) c)
     = [[("uuid", JStr "a"); ("uid", JNum 1)]; c].
Proof.
  intros c.
  assert (Habsent : forall c', In c' two_calendars ->
            strict_eq (get_prop c' "uid") (get_prop c "uid") = false).
  { intros c' [<-|[<-|[]]]; reflexivity. }
  split; [exact Habsent|].
  destruct (updateLocalCalendar_absent_uid (State two_calendars [] None) c
              Habsent) as (_ & _ & _ & Hlast & _).
  exact (Hlast [[("uuid", JStr "a"); ("uid", JNum 1)]]
               [("uuid", JStr "b"); ("uid", JNum 2)] eq_refl).
Defined.

(* ===================================================================== *)
(** * The route table *)
(* ===================================================================== *)

Module RouterFacts.
Import Router.

Lemma catch_all_matches (p : string) (segs : list string) :
  segments p = Some segs -> matches not_found p = true.
Proof.
  intros Hp. unfold matches. rewrite Hp. reflexivity.
Qed.

(** C9: the routes guarded by [onlyGuests] are those of the three paths
    /login, /registration and /password-recovery and no other; the last
    route of the table is the catch-all route to the not-found view; every
    absolute path resolves to a route, and to the not-found route when
    none of the routes before it matches. *)
Theorem routes_guards_and_fallback :
  map path (List.filter (guarded_by onlyGuests) routes)
  = ["/login"; "/registration"; "/password-recovery"]
  /\ last routes = Some not_found
  /\ (forall p segs, segments p = Some segs -> exists r, resolve p = Some r)
  /\ (forall p segs,
        segments p = Some segs ->
        (forall r, In r (removelast routes) -> matches r p = false) ->
        resolve p = Some not_found).
Proof.
  split; [reflexivity|]. split; [reflexivity|]. split.
  - intros p segs Hp. unfold resolve, routes. cbn [find_first].
    repeat match goal with
           | |- context [if matches ?r p then _ else _] =>
               destruct (matches r p) eqn:?; [eauto|]
           end.
    change (Route "/:pathMatch(.*)*" "not-found"
                  (Lazy "../views/errors/NotFound.vue") [])
      with not_found in *.
    pose proof (catch_all_matches p segs Hp). congruence.
  - intros p segs Hp Hnone. unfold resolve, routes. cbn [find_first].
    rewrite !Hnone by (cbn; tauto).
    change (Route "/:pathMatch(.*)*" "not-found"
                  (Lazy "../views/errors/NotFound.vue") [])
      with not_found.
    now rewrite (catch_all_matches p segs Hp).
Qed.

Lemma routes_guards_and_fallback_witness :
  segments "/nowhere/at/all" = Some ["nowhere"; "at"; "all"]
  /\ resolve "/nowhere/at/all" = Some not_found.
Proof.
  split; [reflexivity|].
  destruct routes_guards_and_fallback as (_ & _ & _ & Hfallback).
  apply (Hfallback "/nowhere/at/all" ["nowhere"; "at"; "all"] eq_refl).
  intros r Hr. cbn in Hr.
  repeat (destruct Hr as [<-|Hr]; [reflexivity|]). destruct Hr.
Defined.

End RouterFacts.

(* ===================================================================== *)
(** * Further properties: searching and replacing in a list *)
(* ===================================================================== *)

Lemma strict_eq_true_eq (a b : jsval) : strict_eq a b = true -> a = b.
Proof.
  destruct a as [[| x | x | | x | x | x]|], b as [[| y | y | | y | y | y]|];
    cbn [strict_eq]; try discriminate; try reflexivity; intros H.
  - apply Bool.eqb_prop in H. now subst.
  - apply Z.eqb_eq in H. now subst.
  - apply String.eqb_eq in H. now subst.
Qed.

(** Where a search finds its first element. *)
Lemma find_first_split {A} (p : A -> bool) (l : list A) (x : A) :
  find_first p l = Some x ->
  exists pre post,
    l = pre ++ x :: post /\ p x = true /\ (forall y, In y pre -> p y = false).
Proof.
  induction l as [|a l IH]; cbn [find_first]; [discriminate|].
  destruct (p a) eqn:Ea.
  - intros [= ->]. exists [], l. repeat split; [assumption|intros y []].
  - intros H. destruct (IH H) as (pre & post & -> & Hx & Hpre).
    exists (a :: pre), post. repeat split; [assumption|].
    intros y [<-|Hy]; [assumption|now apply Hpre].
Qed.

Lemma find_first_at {A} (p : A -> bool) (pre post : list A) (x : A) :
  p x = true -> (forall y, In y pre -> p y = false) ->
  find_first p (pre ++ x :: post) = Some x.
Proof.
  intros Hx. induction pre as [|a pre IH]; intros Hpre; cbn [app find_first].
  - now rewrite Hx.
  - rewrite (Hpre a (or_introl eq_refl)). apply IH.
    intros y Hy. apply Hpre. now right.
Qed.

Lemma existsb_find_first {A} (p : A -> bool) (l : list A) :
  existsb p l = true -> exists x, find_first p l = Some x.
Proof.
  induction l as [|a l IH]; cbn [existsb find_first]; [discriminate|].
  destruct (p a); [eauto|exact IH].
Qed.

Lemma findIndex_from_at {A} (p : A -> bool) (pre post : list A) (x : A) (i : Z) :
  p x = true -> (forall y, In y pre -> p y = false) ->
  findIndex_from p (pre ++ x :: post) i = (i + Z.of_nat (length pre))%Z.
Proof.
  intros Hx. revert i. induction pre as [|a pre IH]; intros i Hpre;
    cbn [app findIndex_from length].
  - rewrite Hx. lia.
  - rewrite (Hpre a (or_introl eq_refl)).
    rewrite IH by (intros y Hy; apply Hpre; now right). lia.
Qed.

Lemma findIndex_at {A} (p : A -> bool) (pre post : list A) (x : A) :
  p x = true -> (forall y, In y pre -> p y = false) ->
  findIndex p (pre ++ x :: post) = Z.of_nat (length pre).
Proof.
  intros Hx Hpre. unfold findIndex. now rewrite findIndex_from_at.
Qed.

(** [l.splice(i, 1, c)] at an index of the array replaces that element. *)
Lemma splice_at {A} (c x : A) (pre post : list A) :
  splice (Z.of_nat (length pre)) 1 [c] (pre ++ x :: post) = pre ++ c :: post.
Proof.
  unfold splice.
  assert (Hlen : length (pre ++ x :: post) = length pre + S (length post))
    by (rewrite length_app; reflexivity).
  rewrite Hlen.
  destruct (Z.of_nat (length pre) <? 0)%Z eqn:E; [lia|].
  replace (Z.min (Z.of_nat (length pre)) (Z.of_nat (length pre + S (length post))))
    with (Z.of_nat (length pre)) by lia.
  replace (Z.of_nat (length pre)
           + Z.min (Z.max 1 0)
                   (Z.of_nat (length pre + S (length post)) - Z.of_nat (length pre)))%Z
    with (Z.of_nat (S (length pre))) by lia.
  rewrite !Nat2Z.id.
  assert (Hdrop : drop (S (length pre)) (pre ++ x :: post) = post).
  { clear. induction pre as [|a pre IH]; [reflexivity|exact IH]. }
  now rewrite take_app_length, Hdrop.
Qed.

(** Searching with [findIndex] and replacing with [splice], as the two
    update mutations do: the first element that satisfies [p] is replaced
    and the rest is left as it is. *)
Lemma splice_findIndex_present {A} (p : A -> bool) (c x : A) (pre post : list A) :
  p x = true -> (forall y, In y pre -> p y = false) ->
  splice (findIndex p (pre ++ x :: post)) 1 [c] (pre ++ x :: post)
  = pre ++ c :: post.
Proof.
  intros Hx Hpre. rewrite findIndex_at by assumption. apply splice_at.
Qed.

Lemma splice_findIndex_absent {A} (p : A -> bool) (c : A) (l : list A) :
  (forall y, In y l -> p y = false) ->
  splice (findIndex p l) 1 [c] l = take (length l - 1) l ++ [c].
Proof.
  intros Habsent. unfold findIndex.
  rewrite findIndex_from_absent by assumption. apply splice_last.
Qed.

(* ===================================================================== *)
(** * Further properties: the update mutations *)
(* ===================================================================== *)

(** X1: [updateLocalCalendar] replaces the first calendar of the local list
    whose [uid] is [===] to the [uid] of [c], in place; the calendars
    before and after it stay, and so do the API list and the selection. *)
Theorem updateLocalCalendar_replaces_first_match
    (st : state) (c x : object) (pre post : list object) :
  localCalendars st = pre ++ x :: post ->
  same_uid (get_prop c "uid") x = true ->
  (forall y, In y pre -> same_uid (get_prop c "uid") y = false) ->
  mutations.updateLocalCalendar st c
  = State (pre ++ c :: post) (apiCalendars st) (calendar st).
Proof.
  intros HL Hx Hpre. unfold mutations.updateLocalCalendar. rewrite HL.
  f_equal. now apply (splice_findIndex_present (same_uid (get_prop c "uid"))).
Qed.

Lemma updateLocalCalendar_replaces_first_match_witness :
  mutations.updateLocalCalendar
    (State [[("uid", JNum 1)]; [("uid", JNum 2); ("name", JStr "old")];
            [("uid", JNum 2)]] [] None)
    [("uid", JNum 2); ("name", JStr "new")]
  = State [[("uid", JNum 1)]; [("uid", JNum 2); ("name", JStr "new")];
           [("uid", JNum 2)]] [] None.
Proof.
  apply (updateLocalCalendar_replaces_first_match
           (State [[("uid", JNum 1)]; [("uid", JNum 2); ("name", JStr "old")];
                   [("uid", JNum 2)]] [] None)
           [("uid", JNum 2); ("name", JStr "new")]
           [("uid", JNum 2); ("name", JStr "old")]
           [[("uid", JNum 1)]] [[("uid", JNum 2)]] eq_refl eq_refl).
  intros y [<-|[]]. reflexivity.
Defined.

(** X2: a local calendar without a [uid] property, given to
    [updateCalendar], is written over the first calendar of the local list
    when that one has no [uid] either, whatever the uuids of the two are:
    [undefined === undefined] makes the search stop at index 0.  No request
    is issued and the new list is persisted. *)
Theorem updateCalendar_without_uid_overwrites_first
    (server : list request -> request -> reply) (c first : object)
    (rest : list object) (w : world) :
  truthy (get_prop c "fromApi") = false ->
  get_prop c "uid" = None ->
  localCalendars (store w) = first :: rest ->
  get_prop first "uid" = None ->
  let w' := snd (actions.updateCalendar server c w) in
  localCalendars (store w') = c :: rest
  /\ requests w' = requests w
  /\ persisted w'.
Proof.
  intros Hlocal Hc HL Hfirst w'. subst w'.
  rewrite (updateCalendar_local server c w Hlocal).
  cbn [snd store requests]. unfold persisted.
  cbn [store localStorage].
  rewrite (updateLocalCalendar_replaces_first_match (store w) c first [] rest
             HL).
  - repeat split. apply lookup_insert_eq.
  - unfold same_uid. now rewrite Hc, Hfirst.
  - intros y [].
Qed.

Lemma updateCalendar_without_uid_overwrites_first_witness :
  localCalendars
    (store (snd (actions.updateCalendar offline
                   [("uuid", JStr "b"); ("name", JStr "edited")]
                   (fresh_world None
                      [[("uuid", JStr "a")]; [("uuid", JStr "b")]] []))))
  = [[("uuid", JStr "b"); ("name", JStr "edited")]; [("uuid", JStr "b")]].
Proof.
  exact (proj1 (updateCalendar_without_uid_overwrites_first offline
                  [("uuid", JStr "b"); ("name", JStr "edited")]
                  [("uuid", JStr "a")] [[("uuid", JStr "b")]]
                  (fresh_world None [[("uuid", JStr "a")]; [("uuid", JStr "b")]] [])
                  eq_refl eq_refl eq_refl eq_refl)).
Defined.

(** X3: [updateApiCalendar] replaces, in place, the first calendar of the
    API list that has the uuid of [c]; when no calendar has it, [c] is
    written over the last calendar of the list, or becomes the only one of
    an empty list.  The local list and the selection stay. *)
Theorem updateApiCalendar_replaces_or_overwrites (st : state) (c : object) :
  (forall x pre post,
     apiCalendars st = pre ++ x :: post ->
     same_uuid (get_prop c "uuid") x = true ->
     (forall y, In y pre -> same_uuid (get_prop c "uuid") y = false) ->
     mutations.updateApiCalendar st c
     = State (localCalendars st) (pre ++ c :: post) (calendar st))
  /\ ((forall y, In y (apiCalendars st) ->
         same_uuid (get_prop c "uuid") y = false) ->
      mutations.updateApiCalendar st c
      = State (localCalendars st)
              (take (length (apiCalendars st) - 1) (apiCalendars st) ++ [c])
              (calendar st)).
Proof.
  split.
  - intros x pre post HL Hx Hpre. unfold mutations.updateApiCalendar.
    rewrite HL. f_equal.
    now apply (splice_findIndex_present (same_uuid (get_prop c "uuid"))).
  - intros Habsent. unfold mutations.updateApiCalendar. f_equal.
    now apply (splice_findIndex_absent (same_uuid (get_prop c "uuid"))).
Qed.

Lemma updateApiCalendar_replaces_or_overwrites_witness :
  mutations.updateApiCalendar
    (State [] [[("uuid", JStr "a")]; [("uuid", JStr "b")]] None)
    [("uuid", JStr "a"); ("is_public", JBool true)]
  = State [] [[("uuid", JStr "a"); ("is_public", JBool true)];
              [("uuid", JStr "b")]] None
  /\ mutations.updateApiCalendar
       (State [] [[("uuid", JStr "a")]; [("uuid", JStr "b")]] None)
       [("uuid", JStr "z")]
     = State [] [[("uuid", JStr "a")]; [("uuid", JStr "z")]] None.
Proof.
  split.
  - apply (proj1 (updateApiCalendar_replaces_or_overwrites
                    (State [] [[("uuid", JStr "a")]; [("uuid", JStr "b")]] None)
                    [("uuid", JStr "a"); ("is_public", JBool true)])
                 [("uuid", JStr "a")] [] [[("uuid", JStr "b")]]
                 eq_refl eq_refl).
    intros y [].
  - apply (proj2 (updateApiCalendar_replaces_or_overwrites
                    (State [] [[("uuid", JStr "a")]; [("uuid", JStr "b")]] None)
                    [("uuid", JStr "z")])).
    intros y [<-|[<-|[]]]; reflexivity.
Defined.

(* ===================================================================== *)
(** * Further properties: the actions that talk to the API *)
(* ===================================================================== *)

Lemma togglePrivacy_found_run
    (server : list request -> request -> reply) (uuid : jsval) (w : world)
    (c : object) :
  find_first (same_uuid uuid) (apiCalendars (store w)) = Some c ->
  actions.togglePrivacy server uuid w
  = match server (requests w) (patch_privacy (root w) uuid c) with
    | Reply data =>
        (Resolved (Some (JObj (tag_fromApi data))),
         World (mutations.setCalendar
                  (mutations.updateApiCalendar (store w) (tag_fromApi data))
                  (Some (JObj (tag_fromApi data))))
               (root w) (localStorage w)
               (requests w ++ [patch_privacy (root w) uuid c])
               (generated w) (console w))
    | Failure message =>
        (Rejected (AxiosError message),
         with_requests w [patch_privacy (root w) uuid c])
    end.
Proof.
  intros Hfound. unfold actions.togglePrivacy. run.
  unfold same_uuid in Hfound. rewrite Hfound. run.
  fold (patch_privacy (root w) uuid c).
  now destruct (server (requests w) (patch_privacy (root w) uuid c)).
Qed.

(** X4: when the PATCH of [togglePrivacy] fails, the failure reaches the
    caller: the promise is rejected with the error of the request, nothing
    is written to the console, and the store and local storage are as
    before. *)
Theorem togglePrivacy_failure_propagates
    (server : list request -> request -> reply) (uuid : jsval) (w : world)
    (c : object) (message : string) :
  find_first (same_uuid uuid) (apiCalendars (store w)) = Some c ->
  server (requests w) (patch_privacy (root w) uuid c) = Failure message ->
  actions.togglePrivacy server uuid w
  = (Rejected (AxiosError message),
     with_requests w [patch_privacy (root w) uuid c]).
Proof.
  intros Hfound Hfail.
  now rewrite (togglePrivacy_found_run server uuid w c Hfound), Hfail.
Qed.

Lemma togglePrivacy_failure_propagates_witness :
  let w := fresh_world (Some (JStr "t")) [] one_private in
  actions.togglePrivacy offline (Some (JStr "x")) w
  = (Rejected (AxiosError "Network Error"),
     with_requests w
       [Request PATCH "https://api.test/calendars/x"
                (Some (JObj [("is_public", JBool true)])) "Bearer t"]).
Proof.
  exact (togglePrivacy_failure_propagates offline (Some (JStr "x"))
           (fresh_world (Some (JStr "t")) [] one_private)
           [("uuid", JStr "x"); ("is_public", JBool false)]
           "Network Error" eq_refl eq_refl).
Defined.

(** X5: [togglePrivacy] asks the server for the opposite of the truthiness of
    the calendar's [is_public].  When the server answers with a calendar of
    the same uuid, that answer, tagged [fromApi], takes the place of the
    first calendar of the API list with that uuid, the other calendars
    stay, and the selection and the resolved value are that tagged
    answer.  The local list and local storage are not touched. *)
Theorem togglePrivacy_replaces_in_place
    (server : list request -> request -> reply) (uuid : jsval) (w : world)
    (c : object) (pre post : list object) (data : value) :
  apiCalendars (store w) = pre ++ c :: post ->
  same_uuid uuid c = true ->
  (forall y, In y pre -> same_uuid uuid y = false) ->
  server (requests w) (patch_privacy (root w) uuid c) = Reply data ->
  same_uuid uuid (tag_fromApi data) = true ->
  actions.togglePrivacy server uuid w
  = (Resolved (Some (JObj (tag_fromApi data))),
     World (State (localCalendars (store w))
                  (pre ++ tag_fromApi data :: post)
                  (Some (JObj (tag_fromApi data))))
           (root w) (localStorage w)
           (requests w ++ [patch_privacy (root w) uuid c])
           (generated w) (console w)).
Proof.
  intros HL Hc Hpre Hreply Hdata.
  assert (Hfound : find_first (same_uuid uuid) (apiCalendars (store w)) = Some c)
    by (rewrite HL; now apply find_first_at).
  rewrite (togglePrivacy_found_run server uuid w c Hfound), Hreply.
  assert (Huuid : get_prop (tag_fromApi data) "uuid" = uuid)
    by now apply strict_eq_true_eq.
  destruct (updateApiCalendar_replaces_or_overwrites (store w) (tag_fromApi data))
    as [Hpresent _].
  rewrite (Hpresent c pre post HL); rewrite ?Huuid; try assumption.
  reflexivity.
Qed.

Lemma togglePrivacy_replaces_in_place_witness :
  let w := fresh_world (Some (JStr "t")) []
             ([("uuid", JStr "a")] :: one_private) in
  let made := [("uuid", JStr "x"); ("is_public", JBool true);
               ("fromApi", JBool true)] in
  actions.togglePrivacy made_public (Some (JStr "x")) w
  = (Resolved (Some (JObj made)),
     World (State [] [[("uuid", JStr "a")]; made] (Some (JObj made)))
           (root w) (localStorage w)
           [Request PATCH "https://api.test/calendars/x"
                    (Some (JObj [("is_public", JBool true)])) "Bearer t"]
           0 []).
Proof.
  apply (togglePrivacy_replaces_in_place made_public (Some (JStr "x"))
           (fresh_world (Some (JStr "t")) [] ([("uuid", JStr "a")] :: one_private))
           [("uuid", JStr "x"); ("is_public", JBool false)]
           [[("uuid", JStr "a")]] []
           (JObj [("uuid", JStr "x"); ("is_public", JBool true)])
           eq_refl eq_refl); [|reflexivity|reflexivity].
  intros y [<-|[]]. reflexivity.
Defined.

(** X6: when the answer to the PATCH carries a uuid that no calendar of the
    API list has (an answer without a uuid, for one), [togglePrivacy]
    writes it over the last calendar of the API list, which need not be the
    calendar that was toggled. *)
Theorem togglePrivacy_foreign_answer_overwrites_last
    (server : list request -> request -> reply) (uuid : jsval) (w : world)
    (c : object) (data : value) :
  find_first (same_uuid uuid) (apiCalendars (store w)) = Some c ->
  server (requests w) (patch_privacy (root w) uuid c) = Reply data ->
  (forall y, In y (apiCalendars (store w)) ->
     same_uuid (get_prop (tag_fromApi data) "uuid") y = false) ->
  apiCalendars (store (snd (actions.togglePrivacy server uuid w)))
  = take (length (apiCalendars (store w)) - 1) (apiCalendars (store w))
      ++ [tag_fromApi data].
Proof.
  intros Hfound Hreply Habsent.
  rewrite (togglePrivacy_found_run server uuid w c Hfound), Hreply.
  cbn [snd store mutations.setCalendar apiCalendars].
  destruct (updateApiCalendar_replaces_or_overwrites (store w) (tag_fromApi data))
    as [_ Hab].
  now rewrite (Hab Habsent).
Qed.

Lemma togglePrivacy_foreign_answer_overwrites_last_witness :
  apiCalendars
    (store (snd (actions.togglePrivacy wrapped_answer (Some (JStr "x"))
                   (fresh_world (Some (JStr "t")) []
                      (one_private ++ [[("uuid", JStr "b")]])))))
  = one_private
      ++ [[("data", JObj [("uuid", JStr "x")]); ("fromApi", JBool true)]].
Proof.
  apply (togglePrivacy_foreign_answer_overwrites_last wrapped_answer
           (Some (JStr "x"))
           (fresh_world (Some (JStr "t")) []
              (one_private ++ [[("uuid", JStr "b")]]))
           [("uuid", JStr "x"); ("is_public", JBool false)]
           (JObj [("data", JObj [("uuid", JStr "x")])]) eq_refl eq_refl).
  intros y [<-|[<-|[]]]; reflexivity.
Defined.

(** ** getApiCalendars *)

Lemma getApiCalendars_run
    (server : list request -> request -> reply) (w : world) :
  actions.getApiCalendars server w
  = match server (requests w) (get_calendars (root w)) with
    | Reply (JArr l) =>
        (Resolved (Some (JArr (map JObj (map tag_fromApi l)))),
         World (mutations.setApiCalendars (store w) (map tag_fromApi l))
               (root w) (localStorage w)
               (requests w ++ [get_calendars (root w)])
               (generated w) (console w))
    | Reply _ =>
        (Resolved (Some JNull),
         World (store w) (root w) (localStorage w)
               (requests w ++ [get_calendars (root w)]) (generated w)
               (console w
                  ++ [console_log
                        (TypeError "response.data.map is not a function")]))
    | Failure message =>
        (Resolved (Some JNull),
         World (store w) (root w) (localStorage w)
               (requests w ++ [get_calendars (root w)]) (generated w)
               (console w ++ [console_log (AxiosError message)]))
    end.
Proof.
  unfold actions.getApiCalendars. run. fold (get_calendars (root w)).
  destruct (server (requests w) (get_calendars (root w))) as [[]|];
    reflexivity.
Qed.

(** X7: [getApiCalendars] never rejects.  It issues one GET; when the
    request fails, or the data of the response is not an array, it logs the
    error, resolves with [null] and leaves the store as it was, so that the
    API list still holds what an earlier call put there. *)
Theorem getApiCalendars_never_rejects
    (server : list request -> request -> reply) (w : world) :
  let w' := snd (actions.getApiCalendars server w) in
  (exists v, fst (actions.getApiCalendars server w) = Resolved (Some v))
  /\ requests w' = requests w ++ [get_calendars (root w)]
  /\ ((forall l, server (requests w) (get_calendars (root w)) <> Reply (JArr l)) ->
      fst (actions.getApiCalendars server w) = Resolved (Some JNull)
      /\ store w' = store w
      /\ exists e, console w' = console w ++ [console_log e]).
Proof.
  intros w'. subst w'. rewrite getApiCalendars_run.
  destruct (server (requests w) (get_calendars (root w))) as [[]|];
    cbn [fst snd requests store console];
    (split; [eauto|]); (split; [reflexivity|]); intros Hnot;
    try (now destruct (Hnot l)); repeat split; eauto.
Qed.

Lemma get_prop_tag_fromApi (data : value) :
  get_prop (tag_fromApi data) "fromApi" = Some (JBool true).
Proof.
  unfold tag_fromApi. rewrite get_prop_set_prop. now rewrite String.eqb_refl.
Qed.

Lemma get_prop_tag_other (data : value) (k : string) :
  k <> "fromApi" ->
  get_prop (tag_fromApi data) k = get_prop (own_properties (Some data)) k.
Proof.
  intros Hk. unfold tag_fromApi. rewrite get_prop_set_prop.
  destruct (String.eqb_spec "fromApi" k); [congruence|reflexivity].
Qed.

(** X8: when the server answers [getApiCalendars] with an array, the API
    list becomes that array with every element tagged: each calendar of the
    list has [fromApi === true] and, for the rest, the properties of the
    element it comes from.  The action resolves with the list it committed;
    the local list, the selection and local storage stay. *)
Theorem getApiCalendars_tags_every_calendar
    (server : list request -> request -> reply) (w : world) (l : list value) :
  server (requests w) (get_calendars (root w)) = Reply (JArr l) ->
  let w' := snd (actions.getApiCalendars server w) in
  fst (actions.getApiCalendars server w)
  = Resolved (Some (JArr (map JObj (apiCalendars (store w')))))
  /\ length (apiCalendars (store w')) = length l
  /\ (forall i c, apiCalendars (store w') !! i = Some c ->
        get_prop c "fromApi" = Some (JBool true)
        /\ exists data, l !! i = Some data
             /\ forall k, k <> "fromApi" ->
                  get_prop c k = get_prop (own_properties (Some data)) k)
  /\ localCalendars (store w') = localCalendars (store w)
  /\ calendar (store w') = calendar (store w)
  /\ localStorage w' = localStorage w.
Proof.
  intros Hreply w'. subst w'. rewrite getApiCalendars_run, Hreply.
  cbn [fst snd store localStorage mutations.setApiCalendars apiCalendars
       localCalendars calendar].
  split; [reflexivity|]. split; [apply length_map|].
  split; [|repeat split].
  intros i c Hc. apply list_lookup_fmap_Some in Hc as (data & -> & Hdata).
  split; [apply get_prop_tag_fromApi|].
  exists data. split; [exact Hdata|]. intros k Hk.
  now apply get_prop_tag_other.
Qed.

Lemma getApiCalendars_tags_every_calendar_witness :
  let server := fun (_ : list request) (_ : request) =>
                  Reply (JArr [JObj [("uuid", JStr "x")]; JNull]) in
  let w' := snd (actions.getApiCalendars server
                   (fresh_world (Some (JStr "t")) [] [])) in
  length (apiCalendars (store w')) = 2
  /\ localStorage w' = ∅.
Proof.
  intros server w'.
  destruct (getApiCalendars_tags_every_calendar server
              (fresh_world (Some (JStr "t")) [] [])
              [JObj [("uuid", JStr "x")]; JNull] eq_refl)
    as (_ & Hlen & _ & _ & _ & Hstorage).
  split; [exact Hlen|exact Hstorage].
Defined.

(** ** getApiCalendarByUuid *)

Lemma getApiCalendarByUuid_run
    (server : list request -> request -> reply) (uuid : jsval) (w : world) :
  actions.getApiCalendarByUuid server uuid w
  = match server (requests w) (get_calendar (root w) uuid) with
    | Reply data =>
        (Resolved (Some data),
         World (mutations.setCalendar (store w) (Some (JObj (tag_fromApi data))))
               (root w) (localStorage w)
               (requests w ++ [get_calendar (root w) uuid])
               (generated w) (console w))
    | Failure _ =>
        (Resolved (Some JNull), with_requests w [get_calendar (root w) uuid])
    end.
Proof.
  unfold actions.getApiCalendarByUuid. run. fold (get_calendar (root w) uuid).
  now destruct (server (requests w) (get_calendar (root w) uuid)).
Qed.

(** X9: [getApiCalendarByUuid] never rejects and never touches the two
    lists.  When the request fails it resolves with [null], silently, and
    the selection stays what it was.  When it succeeds the selection
    becomes the answer tagged [fromApi], while the action resolves with the
    answer as the server sent it, without the tag. *)
Theorem getApiCalendarByUuid_selects_or_keeps
    (server : list request -> request -> reply) (uuid : jsval) (w : world) :
  let w' := snd (actions.getApiCalendarByUuid server uuid w) in
  localCalendars (store w') = localCalendars (store w)
  /\ apiCalendars (store w') = apiCalendars (store w)
  /\ localStorage w' = localStorage w
  /\ console w' = console w
  /\ requests w' = requests w ++ [get_calendar (root w) uuid]
  /\ (forall message,
        server (requests w) (get_calendar (root w) uuid) = Failure message ->
        fst (actions.getApiCalendarByUuid server uuid w) = Resolved (Some JNull)
        /\ calendar (store w') = calendar (store w))
  /\ (forall data,
        server (requests w) (get_calendar (root w) uuid) = Reply data ->
        fst (actions.getApiCalendarByUuid server uuid w) = Resolved (Some data)
        /\ calendar (store w') = Some (JObj (tag_fromApi data))
        /\ truthy (get_prop (tag_fromApi data) "fromApi") = true).
Proof.
  intros w'. subst w'. rewrite getApiCalendarByUuid_run.
  destruct (server (requests w) (get_calendar (root w) uuid)) as [data|message];
    cbn [fst snd store localStorage console requests with_requests
         mutations.setCalendar localCalendars apiCalendars calendar];
    (do 5 (split; [reflexivity|])); split; intros x Hx;
    try discriminate Hx; repeat split.
  - injection Hx as <-. reflexivity.
  - injection Hx as <-. reflexivity.
  - injection Hx as <-. now rewrite get_prop_tag_fromApi.
Qed.

(** X10: the calendar [getApiCalendarByUuid] resolves with is not the one it
    selects: when the answer has no truthy [fromApi] of its own,
    [updateCalendar] on the resolved calendar takes the local branch: no
    PUT is issued, and the calendar is written into the local list and
    persisted. *)
Theorem updateCalendar_on_fetched_calendar_stays_local
    (server : list request -> request -> reply) (uuid : jsval) (w : world)
    (m : object) :
  server (requests w) (get_calendar (root w) uuid) = Reply (JObj m) ->
  truthy (get_prop m "fromApi") = false ->
  let w1 := snd (actions.getApiCalendarByUuid server uuid w) in
  let w2 := snd (actions.updateCalendar server m w1) in
  fst (actions.getApiCalendarByUuid server uuid w) = Resolved (Some (JObj m))
  /\ requests w2 = requests w1
  /\ store w2 = mutations.updateLocalCalendar (store w1) m
  /\ In m (localCalendars (store w2))
  /\ persisted w2.
Proof.
  intros Hreply Hlocal w1 w2. subst w2 w1.
  rewrite getApiCalendarByUuid_run, Hreply. cbn [fst snd].
  rewrite (updateCalendar_local server m _ Hlocal).
  cbn [snd requests store]. unfold persisted. cbn [store localStorage].
  repeat split; [|apply lookup_insert_eq].
  unfold mutations.updateLocalCalendar, splice. cbn [localCalendars].
  apply in_or_app. right. now left.
Qed.

Lemma updateCalendar_on_fetched_calendar_stays_local_witness :
  let w := fresh_world (Some (JStr "t")) [[("uuid", JStr "mine")]] [] in
  let m := [("uuid", JStr "x"); ("is_public", JBool true)] in
  let w1 := snd (actions.getApiCalendarByUuid made_public (Some (JStr "x")) w) in
  let w2 := snd (actions.updateCalendar made_public m w1) in
  requests w2 = requests w1 /\ In m (localCalendars (store w2)).
Proof.
  intros w m w1 w2.
  destruct (updateCalendar_on_fetched_calendar_stays_local made_public
              (Some (JStr "x")) w m eq_refl eq_refl)
    as (_ & Hreq & _ & Hin & _).
  split; [exact Hreq|exact Hin].
Defined.

(** ** getLocalCalendarByUuid *)

(** X11: [getLocalCalendarByUuid] selects the first calendar of the local
    list with the given uuid.  When there is none the selection becomes
    [undefined], whatever was selected before.  The two lists and local
    storage stay and no request is issued. *)
Theorem getLocalCalendarByUuid_selects_first
    (uuid : jsval) (w : world) :
  let w' := snd (actions.getLocalCalendarByUuid uuid w) in
  w' = with_store w (mutations.setCalendar (store w) (calendar (store w')))
  /\ fst (actions.getLocalCalendarByUuid uuid w) = Resolved undefined
  /\ ((forall y, In y (localCalendars (store w)) -> same_uuid uuid y = false) ->
      calendar (store w') = undefined)
  /\ (forall c pre post,
        localCalendars (store w) = pre ++ c :: post ->
        same_uuid uuid c = true ->
        (forall y, In y pre -> same_uuid uuid y = false) ->
        calendar (store w') = Some (JObj c)).
Proof.
  intros w'. subst w'. unfold actions.getLocalCalendarByUuid. run.
  cbn [mutations.setCalendar calendar localCalendars apiCalendars].
  split; [reflexivity|]. split; [reflexivity|]. split.
  - intros Habsent.
    assert (H : find_first (same_uuid uuid) (localCalendars (store w)) = None).
    { apply find_first_None. apply not_true_is_false. intros Hex.
      apply existsb_exists in Hex as (y & Hy & Hp).
      rewrite (Habsent y Hy) in Hp. discriminate Hp. }
    unfold same_uuid in H. now rewrite H.
  - intros c pre post HL Hc Hpre. rewrite HL.
    pose proof (find_first_at (same_uuid uuid) pre post c Hc Hpre) as H.
    unfold same_uuid in H. now rewrite H.
Qed.

Lemma getLocalCalendarByUuid_selects_first_witness :
  let w := fresh_world None
             [[("uuid", JStr "a")]; [("uuid", JStr "b"); ("n", JNum 1)];
              [("uuid", JStr "b"); ("n", JNum 2)]] [] in
  calendar (store (snd (actions.getLocalCalendarByUuid (Some (JStr "b")) w)))
  = Some (JObj [("uuid", JStr "b"); ("n", JNum 1)])
  /\ calendar (store (snd (actions.getLocalCalendarByUuid (Some (JStr "z")) w)))
     = undefined.
Proof.
  intros w. split.
  - apply (proj2 (proj2 (proj2
             (getLocalCalendarByUuid_selects_first (Some (JStr "b")) w)))
             [("uuid", JStr "b"); ("n", JNum 1)]
             [[("uuid", JStr "a")]] [[("uuid", JStr "b"); ("n", JNum 2)]]
             eq_refl eq_refl).
    intros y [<-|[]]. reflexivity.
  - apply (proj1 (proj2 (proj2
             (getLocalCalendarByUuid_selects_first (Some (JStr "z")) w)))).
    intros y [<-|[<-|[<-|[]]]]; reflexivity.
Defined.

(* ===================================================================== *)
(** * Further properties: the actions on the local list *)
(* ===================================================================== *)

Lemma deleteCalendar_run
    (server : list request -> request -> reply) (c : object) (w : world) :
  actions.deleteCalendar server c w
  = (Resolved undefined,
     World (mutations.removeLocalCalendar (store w) c) (root w)
           (<["calendars" :=
                Json.stringify
                  (JArr (map JObj
                           (localCalendars
                              (mutations.removeLocalCalendar (store w) c))))]>
              (localStorage w))
           (requests w ++ [delete_calendar (root w) c])
           (generated w) (console w)).
Proof.
  unfold actions.deleteCalendar. run. fold (delete_calendar (root w) c).
  now destruct (server (requests w) (delete_calendar (root w) c)).
Qed.

Lemma createCalendar_local_run
    (server : list request -> request -> reply) (uuidv4 : nat -> string)
    (c : object) (w : world) :
  truthy (token (root w)) = false ->
  actions.createCalendar server uuidv4 c w
  = (Resolved (Some (JObj c)),
     World (mutations.addLocalCalendar (store w)
              (assign [("uuid", JStr (uuidv4 (generated w)))] c))
           (root w)
           (<["calendars" :=
                Json.stringify
                  (JArr (map JObj
                           (localCalendars (store w)
                              ++ [assign [("uuid", JStr (uuidv4 (generated w)))] c])))]>
              (localStorage w))
           (requests w) (S (generated w)) (console w)).
Proof.
  intros Htoken. unfold actions.createCalendar. run. now rewrite Htoken.
Qed.

Lemma filter_filter_same {A} (p : A -> bool) (l : list A) :
  List.filter p (List.filter p l) = List.filter p l.
Proof.
  induction l as [|x l IH]; [reflexivity|]. cbn [List.filter].
  destruct (p x) eqn:E; [|exact IH]. cbn [List.filter]. now rewrite E, IH.
Qed.

Lemma filter_all {A} (p : A -> bool) (l : list A) :
  (forall x, In x l -> p x = true) -> List.filter p l = l.
Proof.
  induction l as [|x l IH]; intros H; [reflexivity|]. cbn [List.filter].
  rewrite (H x (or_introl eq_refl)). f_equal. apply IH.
  intros y Hy. apply H. now right.
Qed.

(** ** deleteCalendar *)

(** X12: deleting the same calendar a second time changes neither the store
    nor local storage; only a second DELETE request is issued. *)
Theorem deleteCalendar_twice
    (server : list request -> request -> reply) (c : object) (w : world) :
  let w1 := snd (actions.deleteCalendar server c w) in
  let w2 := snd (actions.deleteCalendar server c w1) in
  store w2 = store w1
  /\ localStorage w2 = localStorage w1
  /\ requests w2 = requests w1 ++ [delete_calendar (root w) c].
Proof.
  intros w1 w2. subst w2 w1. rewrite !deleteCalendar_run.
  cbn [snd store localStorage requests root].
  unfold mutations.removeLocalCalendar.
  cbn [localCalendars apiCalendars calendar].
  rewrite filter_filter_same. repeat split. apply insert_insert_eq.
Qed.

(** X13: [deleteCalendar] of a calendar that has no uuid property removes
    from the local list every calendar that has no uuid property, and keeps
    the calendars that have one: [undefined !== undefined] is false. *)
Theorem deleteCalendar_without_uuid_removes_all_without
    (server : list request -> request -> reply) (c : object) (w : world) :
  get_prop c "uuid" = None ->
  localCalendars (store (snd (actions.deleteCalendar server c w)))
  = List.filter (fun c' => has_prop c' "uuid") (localCalendars (store w)).
Proof.
  intros Hc. rewrite deleteCalendar_run.
  cbn [snd store mutations.removeLocalCalendar localCalendars]. rewrite Hc.
  induction (localCalendars (store w)) as [|x l IH]; [reflexivity|].
  cbn [List.filter]. rewrite IH. unfold has_prop.
  now destruct (get_prop x "uuid") as [[]|].
Qed.

Lemma deleteCalendar_without_uuid_removes_all_without_witness :
  localCalendars
    (store (snd (actions.deleteCalendar offline [("name", JStr "A")]
                   (fresh_world None
                      [[("name", JStr "A")]; [("uuid", JStr "k")];
                       [("name", JStr "B")]] []))))
  = [[("uuid", JStr "k")]].
Proof.
  exact (deleteCalendar_without_uuid_removes_all_without offline
           [("name", JStr "A")]
           (fresh_world None [[("name", JStr "A")]; [("uuid", JStr "k")];
                              [("name", JStr "B")]] [])
           eq_refl).
Defined.

(** ** createCalendar and deleteCalendar together *)

Lemma get_prop_assign_head (k : string) (v : value) (c : object) :
  exists x, get_prop (assign [(k, v)] c) k = Some x.
Proof.
  destruct (assign_head k v [] c) as (x & rest & ->).
  exists x. cbn [get_prop]. now rewrite String.eqb_refl.
Qed.

(** X14: the calendar [createCalendar] resolves with cannot be used to
    delete the calendar it created.  Without a token and for an input
    without a uuid, [deleteCalendar] of the resolved value leaves the
    created copy in the local list (and removes the calendars that have no
    uuid). *)
Theorem deleteCalendar_of_created_value_keeps_copy
    (server : list request -> request -> reply) (uuidv4 : nat -> string)
    (c : object) (w : world) :
  truthy (token (root w)) = false ->
  get_prop c "uuid" = None ->
  let copy := assign [("uuid", JStr (uuidv4 (generated w)))] c in
  let w1 := snd (actions.createCalendar server uuidv4 c w) in
  let w2 := snd (actions.deleteCalendar server c w1) in
  fst (actions.createCalendar server uuidv4 c w) = Resolved (Some (JObj c))
  /\ In copy (localCalendars (store w2))
  /\ localCalendars (store w2)
     = List.filter (fun c' => has_prop c' "uuid") (localCalendars (store w))
         ++ [copy].
Proof.
  intros Htoken Hc copy w1 w2. subst w2 w1.
  rewrite (createCalendar_local_run server uuidv4 c w Htoken). cbn [fst snd].
  rewrite (deleteCalendar_without_uuid_removes_all_without server c _ Hc).
  cbn [store mutations.addLocalCalendar localCalendars]. fold copy.
  assert (Hcopy : has_prop copy "uuid" = true).
  { unfold has_prop, copy.
    now destruct (get_prop_assign_head "uuid" (JStr (uuidv4 (generated w))) c)
      as [x ->]. }
  assert (Hfilter :
    List.filter (fun c' => has_prop c' "uuid") (localCalendars (store w) ++ [copy])
    = List.filter (fun c' => has_prop c' "uuid") (localCalendars (store w))
        ++ [copy]).
  { rewrite List.filter_app. cbn [List.filter]. now rewrite Hcopy. }
  rewrite Hfilter. repeat split. apply in_or_app. right. now left.
Qed.

Lemma deleteCalendar_of_created_value_keeps_copy_witness :
  let w := fresh_world None [] [] in
  let c := [("name", JStr "A")] in
  let w1 := snd (actions.createCalendar offline counter_uuid c w) in
  localCalendars (store (snd (actions.deleteCalendar offline c w1)))
  = [[("uuid", JStr "uuid-0"); ("name", JStr "A")]].
Proof.
  intros w c w1.
  exact (proj2 (proj2 (deleteCalendar_of_created_value_keeps_copy offline
                         counter_uuid c w eq_refl eq_refl))).
Defined.

(** X15: creating a calendar without a token and then deleting the copy
    that was stored gives back the local list as it was, in the store and
    in local storage, when the input has no uuid and no calendar of the
    list has the generated uuid. *)
Theorem createCalendar_then_deleteCalendar
    (server : list request -> request -> reply) (uuidv4 : nat -> string)
    (c : object) (w : world) :
  truthy (token (root w)) = false ->
  get_prop c "uuid" = None ->
  distinct_keys c ->
  (forall y, In y (localCalendars (store w)) ->
     same_uuid (Some (JStr (uuidv4 (generated w)))) y = false) ->
  let copy := ("uuid", JStr (uuidv4 (generated w))) :: c in
  let w1 := snd (actions.createCalendar server uuidv4 c w) in
  let w2 := snd (actions.deleteCalendar server copy w1) in
  localCalendars (store w1) = localCalendars (store w) ++ [copy]
  /\ store w2 = store w
  /\ localStorage w2 !! "calendars"
     = Some (Json.stringify (JArr (map JObj (localCalendars (store w))))).
Proof.
  intros Htoken Hc Hd Hfresh copy w1 w2. subst w2 w1.
  rewrite (createCalendar_local_run server uuidv4 c w Htoken). cbn [snd].
  rewrite deleteCalendar_run. cbn [snd store localStorage].
  rewrite (assign_new_property "uuid" _ c Hc Hd). fold copy.
  assert (Hremove :
    mutations.removeLocalCalendar
      (mutations.addLocalCalendar (store w) copy) copy = store w).
  { unfold mutations.removeLocalCalendar, mutations.addLocalCalendar.
    cbn [localCalendars apiCalendars calendar].
    rewrite List.filter_app. cbn [List.filter].
    change (get_prop copy "uuid") with (Some (JStr (uuidv4 (generated w)))).
    cbn [strict_eq]. rewrite String.eqb_refl. cbn [negb].
    rewrite app_nil_r, filter_all; [now destruct (store w)|].
    intros y Hy. apply negb_true_iff. exact (Hfresh y Hy). }
  rewrite Hremove. repeat split. apply lookup_insert_eq.
Qed.

Lemma createCalendar_then_deleteCalendar_witness :
  let w := fresh_world None [[("uuid", JStr "k")]] [] in
  let c := [("name", JStr "A")] in
  let w1 := snd (actions.createCalendar offline counter_uuid c w) in
  store (snd (actions.deleteCalendar offline
                (("uuid", JStr "uuid-0") :: c) w1))
  = store w.
Proof.
  intros w c w1.
  refine (proj1 (proj2 (createCalendar_then_deleteCalendar offline
                          counter_uuid c w eq_refl eq_refl
                          (NoDup_singleton "name") _))).
  intros y [<-|[]]. reflexivity.
Defined.

(** ** saveSharedCalendar *)

(** When [c] has the property, the value given to it in front of the spread
    is lost. *)
Lemma assign_overwritten (k : string) (x x' : value) (base c : object) :
  In k (keys c) ->
  assign ((k, x) :: base) c = assign ((k, x') :: base) c.
Proof.
  revert base. induction c as [|[k1 v1] c IH]; intros base Hk; [destruct Hk|].
  unfold assign. cbn [fold_left fst snd set_prop].
  change (fold_left _ c ?b) with (assign b c).
  destruct (String.eqb_spec k k1) as [->|Hne]; [reflexivity|].
  apply IH. destruct Hk as [Hk|Hk]; [cbn in Hk; congruence|exact Hk].
Qed.

Lemma get_prop_Some_keys (o : object) (k : string) (v : value) :
  get_prop o k = Some v -> In k (keys o).
Proof.
  intros H. apply list_elem_of_In.
  destruct (decide (k ∈ keys o)) as [Hin|Hnot]; [exact Hin|].
  apply get_prop_None_keys in Hnot. congruence.
Qed.

(** X16: for a shared calendar that has a uuid property, the copy
    [saveSharedCalendar] stores does not depend on the uuid it generates.
    Saving the same shared calendar twice therefore appends the same copy
    twice, two local calendars with one uuid, and one [deleteCalendar] of
    the copy removes both. *)
Theorem saveSharedCalendar_twice_duplicates
    (server : list request -> request -> reply) (uuidv4 : nat -> string)
    (shared : object) (v : value) (w : world) :
  get_prop shared "uuid" = Some v ->
  distinct_keys shared ->
  strict_eq (Some v) (Some v) = true ->
  (forall y, In y (localCalendars (store w)) -> same_uuid (Some v) y = false) ->
  let copy := assign [("uuid", JStr (uuidv4 (generated w)))] shared in
  let w1 := snd (actions.saveSharedCalendar uuidv4 shared w) in
  let w2 := snd (actions.saveSharedCalendar uuidv4 shared w1) in
  let w3 := snd (actions.deleteCalendar server copy w2) in
  get_prop copy "uuid" = Some v
  /\ localCalendars (store w2) = localCalendars (store w) ++ [copy; copy]
  /\ localCalendars (store w3) = localCalendars (store w).
Proof.
  intros Hv Hd Hrefl Hfresh copy w1 w2 w3. subst w3 w2 w1.
  assert (Hcopy : get_prop copy "uuid" = Some v).
  { unfold copy. rewrite get_prop_assign by exact Hd. now rewrite Hv. }
  rewrite deleteCalendar_run, !saveSharedCalendar_run.
  cbn [snd store generated mutations.addLocalCalendar
       mutations.removeLocalCalendar localCalendars].
  rewrite (assign_overwritten "uuid" (JStr (uuidv4 (S (generated w))))
             (JStr (uuidv4 (generated w))) [] shared)
    by (eapply get_prop_Some_keys; exact Hv).
  fold copy. rewrite <- app_assoc. cbn [app].
  split; [exact Hcopy|]. split; [reflexivity|].
  rewrite List.filter_app. cbn [List.filter]. rewrite Hcopy, Hrefl. cbn [negb].
  rewrite app_nil_r. apply filter_all.
  intros y Hy. apply negb_true_iff. exact (Hfresh y Hy).
Qed.

Lemma saveSharedCalendar_twice_duplicates_witness :
  let shared := [("name", JStr "S"); ("uuid", JStr "x")] in
  let w := fresh_world None [[("uuid", JStr "k")]] [] in
  let w1 := snd (actions.saveSharedCalendar counter_uuid shared w) in
  let w2 := snd (actions.saveSharedCalendar counter_uuid shared w1) in
  localCalendars (store w2)
  = [[("uuid", JStr "k")];
     [("uuid", JStr "x"); ("name", JStr "S")];
     [("uuid", JStr "x"); ("name", JStr "S")]].
Proof.
  intros shared w w1 w2.
  assert (Hd : distinct_keys shared).
  { apply NoDup_cons. split; [|apply NoDup_singleton].
    intros H. apply list_elem_of_singleton in H. discriminate H. }
  refine (proj1 (proj2 (saveSharedCalendar_twice_duplicates offline
                          counter_uuid shared (JStr "x") w eq_refl Hd
                          eq_refl _))).
  intros y [<-|[]]. reflexivity.
Defined.

(** ** addCalendar *)

(** X17: the module declares eight mutations, [addLocalCalendar] among them
    and [addCalendar] not.  [addCalendar] commits the type [addCalendar],
    for which there is no handler, so it adds nothing: the store is as
    before, no request is issued, one uuid is generated and dropped, and
    the unchanged local list is written to local storage; a development
    build of Vuex reports the unknown type on the console.  The same commit
    with the type [addLocalCalendar] appends the calendar. *)
Theorem addCalendar_adds_nothing
    (uuidv4 : nat -> string) (development : bool) (namespace : string)
    (c : object) (w : world) :
  map fst declared_mutations
  = ["setLocalCalendars"; "setApiCalendars"; "setCalendar";
     "addLocalCalendar"; "removeLocalCalendar"; "updateLocalCalendar";
     "updateApiCalendar"; "addSection"]
  /\ actions.addCalendar uuidv4 development namespace c w
     = (Resolved undefined,
        World (store w) (root w)
              (<["calendars" :=
                   Json.stringify (JArr (map JObj (localCalendars (store w))))]>
                 (localStorage w))
              (requests w) (S (generated w))
              (if development then
                 console w
                   ++ [console_error_text
                         ("[vuex] unknown local mutation type: addCalendar"
                            +:+ ", global type: " +:+ namespace
                            +:+ "addCalendar")]
               else console w))
  /\ actions.commit_type development namespace "addLocalCalendar" (Calendar c) w
     = (Resolved tt,
        World (State (localCalendars (store w) ++ [c]) (apiCalendars (store w))
                     (calendar (store w)))
              (root w) (localStorage w) (requests w) (generated w) (console w)).
Proof.
  split; [reflexivity|]. split; [|reflexivity].
  unfold actions.addCalendar, actions.commit_type, actions.unknown_mutation.
  change (handler_of "addCalendar") with (@None (state -> payload -> option state)).
  cbv iota. destruct development; reflexivity.
Qed.

(** ** What is persisted *)

(** X18: after each action that writes the local list, local storage holds
    the text of the list the store holds: [setLocalCalendars],
    [saveLocalCalendars], [saveSharedCalendar], [deleteCalendar],
    [addUuidToCalendars], [createCalendar] without a token and
    [updateCalendar] of a calendar that is not from the API. *)
Theorem local_writes_are_persisted
    (server : list request -> request -> reply) (uuidv4 : nat -> string)
    (c : object) (l : list object) (w : world) :
  persisted (snd (actions.setLocalCalendars l w))
  /\ persisted (snd (actions.saveLocalCalendars w))
  /\ persisted (snd (actions.saveSharedCalendar uuidv4 c w))
  /\ persisted (snd (actions.deleteCalendar server c w))
  /\ persisted (snd (actions.addUuidToCalendars uuidv4 w))
  /\ (truthy (token (root w)) = false ->
      persisted (snd (actions.createCalendar server uuidv4 c w)))
  /\ (truthy (get_prop c "fromApi") = false ->
      persisted (snd (actions.updateCalendar server c w))).
Proof.
  unfold persisted. repeat split.
  - apply lookup_insert_eq.
  - apply lookup_insert_eq.
  - rewrite saveSharedCalendar_run. apply lookup_insert_eq.
  - rewrite deleteCalendar_run. apply lookup_insert_eq.
  - destruct (addUuidToCalendars_run uuidv4 w) as (l1 & g' & -> & _).
    apply lookup_insert_eq.
  - intros Htoken. rewrite (createCalendar_local_run server uuidv4 c w Htoken).
    apply lookup_insert_eq.
  - intros Hlocal. rewrite (updateCalendar_local server c w Hlocal).
    apply lookup_insert_eq.
Qed.

(** X19: when local storage holds the text of the store's local list, and
    the list is one JSON carries, a later [getLocalCalendars] loads that
    list: whatever the store holds by then (after a reload, the empty
    lists of the start), the local list becomes the one that was persisted,
    and nothing else changes. *)
Theorem getLocalCalendars_after_persisted (w : world) (st' : state) :
  let L := localCalendars (store w) in
  persisted w ->
  Json.well_formed (JArr (map JObj L)) = true ->
  Json.carried (JArr (map JObj L)) = true ->
  actions.getLocalCalendars
    (World st' (root w) (localStorage w) (requests w) (generated w) (console w))
  = (Resolved undefined,
     World (State L (apiCalendars st') (calendar st')) (root w)
           (localStorage w) (requests w) (generated w) (console w)).
Proof.
  intros L Hp Hwf Hc.
  exact (getLocalCalendars_reads
           (World st' (root w) (localStorage w) (requests w) (generated w)
                  (console w)) L Hp Hwf Hc).
Qed.

Lemma getLocalCalendars_after_persisted_witness :
  let w := snd (actions.createCalendar offline counter_uuid
                  [("name", JStr "S"); ("sections", JArr [])]
                  (fresh_world None [[("uuid", JStr "k")]] [])) in
  localCalendars
    (store (snd (actions.getLocalCalendars
                   (World initial_state (root w) (localStorage w) (requests w)
                          (generated w) (console w)))))
  = [[("uuid", JStr "k")];
     [("uuid", JStr "uuid-0"); ("name", JStr "S"); ("sections", JArr [])]].
Proof.
  intros w.
  rewrite (getLocalCalendars_after_persisted w initial_state
             (lookup_insert_eq _ _ _) eq_refl eq_refl).
  reflexivity.
Defined.

(** ** getLocalCalendars at the edges *)

(** X20: with nothing stored under the key, or with the text [null] stored,
    [getLocalCalendars] makes the local list empty and changes nothing
    else.  With a stored text that is not JSON it rejects with the
    [SyntaxError] and leaves the world as it is, the local list included. *)
Theorem getLocalCalendars_without_list (w : world) :
  (localStorage w !! "calendars" = None
   \/ localStorage w !! "calendars" = Some "null" ->
   actions.getLocalCalendars w
   = (Resolved undefined,
      World (State [] (apiCalendars (store w)) (calendar (store w))) (root w)
            (localStorage w) (requests w) (generated w) (console w)))
  /\ (forall text,
        localStorage w !! "calendars" = Some text ->
        Json.parse text = Json.Malformed ->
        actions.getLocalCalendars w = (Rejected SyntaxError, w)).
Proof.
  split.
  - intros [H|H]; unfold actions.getLocalCalendars; run; now rewrite H.
  - intros text Htext Hparse. unfold actions.getLocalCalendars. run.
    rewrite Htext. unfold JSON_parse. cbn [default]. unfold id.
    now rewrite Hparse.
Qed.

Lemma getLocalCalendars_without_list_witness :
  actions.getLocalCalendars (fresh_world None [[("uuid", JStr "k")]] [])
  = (Resolved undefined, fresh_world None [] [])
  /\ fst (actions.getLocalCalendars
            (World initial_state (RootState None "")
                   {["calendars" := "[{"]} [] 0 []))
     = Rejected SyntaxError.
Proof.
  split.
  - apply (proj1 (getLocalCalendars_without_list
                    (fresh_world None [[("uuid", JStr "k")]] []))).
    left. reflexivity.
  - rewrite (proj2 (getLocalCalendars_without_list
                      (World initial_state (RootState None "")
                             {["calendars" := "[{"]} [] 0 []))
                   "[{" (lookup_singleton_eq _ _) eq_refl).
    reflexivity.
Defined.

(** ** addUuidToCalendars *)

(** X21: after [addUuidToCalendars] the local list has as many calendars as
    before and each of them has a uuid property; a calendar whose uuid was
    truthy is the same calendar as before.  No request is issued, and the
    new list is persisted. *)
Theorem addUuidToCalendars_gives_every_calendar_a_uuid
    (uuidv4 : nat -> string) (w : world) :
  let w' := snd (actions.addUuidToCalendars uuidv4 w) in
  length (localCalendars (store w')) = length (localCalendars (store w))
  /\ (forall c1, In c1 (localCalendars (store w')) -> has_prop c1 "uuid" = true)
  /\ (forall i c, localCalendars (store w) !! i = Some c ->
        truthy (get_prop c "uuid") = true ->
        localCalendars (store w') !! i = Some c)
  /\ requests w' = requests w
  /\ apiCalendars (store w') = apiCalendars (store w)
  /\ persisted w'.
Proof.
  destruct (addUuidToCalendars_run uuidv4 w) as (l1 & g' & Hrun & Hl1).
  intros w'. subst w'. rewrite Hrun. unfold persisted.
  cbn [snd store localStorage requests mutations.setLocalCalendars
       localCalendars apiCalendars].
  split; [symmetry; now apply Forall2_length in Hl1|].
  split; [|split; [|repeat split; apply lookup_insert_eq]].
  - intros c1 Hc1. apply list_elem_of_In in Hc1.
    apply list_elem_of_lookup in Hc1 as [i Hi].
    destruct (Forall2_lookup_r _ _ _ _ _ Hl1 Hi) as (c & _ & Hm).
    unfold migrated in Hm. unfold has_prop.
    destruct (truthy (get_prop c "uuid")) eqn:E.
    + subst c1. now destruct (get_prop c "uuid").
    + destruct Hm as [u ->].
      now destruct (get_prop_assign_head "uuid" (JStr u) c) as [x ->].
  - intros i c Hi Htruthy.
    destruct (Forall2_lookup_l _ _ _ _ _ Hl1 Hi) as (c1 & Hc1 & Hm).
    unfold migrated in Hm. rewrite Htruthy in Hm. now subst c1.
Qed.

(* ===================================================================== *)
(** * Further properties: what an action leaves alone *)
(* ===================================================================== *)

Lemma for_each_section_id_world (l : list value) (w : world) :
  snd (for_each section_id l w) = w.
Proof.
  induction l as [|s l IH]; [reflexivity|].
  cbn [for_each]. run.
  assert (Hs : snd (section_id s w) = w) by now destruct s.
  destruct (section_id s w) as [[x|e] w1]; cbn [snd] in Hs; subst w1;
    [|reflexivity].
  destruct (for_each section_id l w) as [[ys|e] w2]; cbn [snd] in IH; subst w2;
    reflexivity.
Qed.

Lemma section_ids_world (sections : jsval) (w : world) :
  snd (section_ids sections w) = w.
Proof.
  destruct sections as [[]|]; try reflexivity. apply for_each_section_id_world.
Qed.

Lemma updateCalendar_api_local_untouched
    (server : list request -> request -> reply) (c : object) (w : world) :
  truthy (get_prop c "fromApi") = true ->
  local_untouched w (snd (actions.updateCalendar server c w)).
Proof.
  intros Hapi. unfold actions.updateCalendar. rewrite Hapi. cbn [negb]. run.
  destruct (server _ _); [|now split].
  match goal with
  | |- context [section_ids ?s ?w1] =>
      pose proof (section_ids_world s w1) as Hw;
      destruct (section_ids s w1) as [[ids|e] w2]; cbn [snd] in Hw; subst w2
  end; run; [|now split].
  destruct (server _ _); now split.
Qed.

(** X22: the actions that talk to the API never write the local list or
    local storage, whatever the server answers: [getApiCalendars],
    [togglePrivacy], [getApiCalendarByUuid], [createCalendar] with a token
    and [updateCalendar] of a calendar from the API. *)
Theorem api_actions_leave_local_side
    (server : list request -> request -> reply) (uuidv4 : nat -> string)
    (c : object) (uuid : jsval) (w : world) :
  local_untouched w (snd (actions.getApiCalendars server w))
  /\ local_untouched w (snd (actions.togglePrivacy server uuid w))
  /\ local_untouched w (snd (actions.getApiCalendarByUuid server uuid w))
  /\ (truthy (token (root w)) = true ->
      local_untouched w (snd (actions.createCalendar server uuidv4 c w)))
  /\ (truthy (get_prop c "fromApi") = true ->
      local_untouched w (snd (actions.updateCalendar server c w))).
Proof.
  split; [|split; [|split; [|split]]].
  - rewrite getApiCalendars_run.
    destruct (server _ _) as [[]|]; now split.
  - destruct (find_first (same_uuid uuid) (apiCalendars (store w))) as [x|] eqn:E.
    + rewrite (togglePrivacy_found_run server uuid w x E).
      destruct (server _ _); now split.
    + unfold actions.togglePrivacy. run. unfold same_uuid in E. rewrite E.
      now split.
  - rewrite getApiCalendarByUuid_run. destruct (server _ _); now split.
  - intros Htoken. unfold actions.createCalendar. run. rewrite Htoken.
    cbn [negb]. destruct (server _ _); now split.
  - apply updateCalendar_api_local_untouched.
Qed.

(** X23: the actions on the local list never issue a request and never
    write the API list: [saveLocalCalendars], [setLocalCalendars],
    [addUuidToCalendars], [getLocalCalendars], [saveSharedCalendar],
    [getLocalCalendarByUuid] and [addCalendar]. *)
Theorem local_actions_leave_api_side
    (uuidv4 : nat -> string) (development : bool) (namespace : string)
    (c : object) (l : list object) (uuid : jsval) (w : world) :
  api_untouched w (snd (actions.saveLocalCalendars w))
  /\ api_untouched w (snd (actions.setLocalCalendars l w))
  /\ api_untouched w (snd (actions.addUuidToCalendars uuidv4 w))
  /\ api_untouched w (snd (actions.getLocalCalendars w))
  /\ api_untouched w (snd (actions.saveSharedCalendar uuidv4 c w))
  /\ api_untouched w (snd (actions.getLocalCalendarByUuid uuid w))
  /\ api_untouched w (snd (actions.addCalendar uuidv4 development namespace c w)).
Proof.
  repeat match goal with |- _ /\ _ => split end; try (now split).
  - destruct (addUuidToCalendars_run uuidv4 w) as (l1 & g' & -> & _).
    now split.
  - unfold actions.getLocalCalendars, JSON_parse. run.
    destruct (Json.parse _) as [v| |]; run; try (now split).
    destruct v; try (now split);
      destruct (as_calendars _); now split.
  - destruct development; now split.
Qed.

(* ===================================================================== *)
(** * Further properties: the getter, creation on the API, unique uuids *)
(* ===================================================================== *)

(** X24: the getter [UuidApiCalendarsExist] tells what [togglePrivacy] will
    do: when it answers true for a uuid, [togglePrivacy] issues exactly one
    request, the PATCH for the first calendar of the API list with that
    uuid, and does not reject with "Calendar not found". *)
Theorem togglePrivacy_patches_known_uuid
    (server : list request -> request -> reply) (uuid : jsval) (w : world) :
  getters.UuidApiCalendarsExist (store w) uuid = true ->
  exists c,
    In c (apiCalendars (store w))
    /\ same_uuid uuid c = true
    /\ requests (snd (actions.togglePrivacy server uuid w))
       = requests w ++ [patch_privacy (root w) uuid c]
    /\ fst (actions.togglePrivacy server uuid w)
       <> Rejected (Reason (JStr "Calendar not found")).
Proof.
  intros Hknown.
  destruct (existsb_find_first (same_uuid uuid) (apiCalendars (store w)) Hknown)
    as [c Hc].
  destruct (find_first_split _ _ _ Hc) as (pre & post & HL & Hp & _).
  exists c. split; [rewrite HL; apply in_or_app; right; now left|].
  split; [exact Hp|].
  rewrite (togglePrivacy_found_run server uuid w c Hc).
  destruct (server _ _); cbn [fst snd requests with_requests];
    split; [reflexivity|discriminate|reflexivity|discriminate].
Qed.

Lemma togglePrivacy_patches_known_uuid_witness :
  exists c,
    In c one_private
    /\ same_uuid (Some (JStr "x")) c = true
    /\ requests (snd (actions.togglePrivacy offline (Some (JStr "x"))
                        (fresh_world (Some (JStr "t")) [] one_private)))
       = [] ++ [patch_privacy (RootState (Some (JStr "t")) "https://api.test")
                              (Some (JStr "x")) c]
    /\ fst (actions.togglePrivacy offline (Some (JStr "x"))
              (fresh_world (Some (JStr "t")) [] one_private))
       <> Rejected (Reason (JStr "Calendar not found")).
Proof.
  exact (togglePrivacy_patches_known_uuid offline (Some (JStr "x"))
           (fresh_world (Some (JStr "t")) [] one_private) eq_refl).
Defined.

(** X25: with a token, a POST that succeeds makes [createCalendar] resolve
    with the data of the response and nothing else: the created calendar
    enters neither the API list nor the local list, no uuid is generated
    and nothing is persisted. *)
Theorem createCalendar_api_success
    (server : list request -> request -> reply) (uuidv4 : nat -> string)
    (c : object) (w : world) (data : value) :
  truthy (token (root w)) = true ->
  server (requests w) (post_calendar (root w) c) = Reply data ->
  actions.createCalendar server uuidv4 c w
  = (Resolved (Some data), with_requests w [post_calendar (root w) c]).
Proof.
  intros Htoken Hreply. unfold actions.createCalendar. run. rewrite Htoken.
  cbn [negb]. fold (post_calendar (root w) c). now rewrite Hreply.
Qed.

Lemma createCalendar_api_success_witness :
  let w := fresh_world (Some (JStr "t")) [] [] in
  actions.createCalendar echo counter_uuid [("name", JStr "A")] w
  = (Resolved (Some (JObj [("name", JStr "A")])),
     with_requests w [post_calendar (root w) [("name", JStr "A")]]).
Proof.
  exact (createCalendar_api_success echo counter_uuid [("name", JStr "A")]
           (fresh_world (Some (JStr "t")) [] [])
           (JObj [("name", JStr "A")]) eq_refl eq_refl).
Defined.

Lemma NoDup_map_filter {A B} (f : A -> B) (p : A -> bool) (l : list A) :
  NoDup (map f l) -> NoDup (map f (List.filter p l)).
Proof.
  induction l as [|x l IH]; [intros _; constructor|].
  cbn [map List.filter]. intros Hnd.
  apply NoDup_cons in Hnd as [Hx Hl]. destruct (p x); [|now apply IH].
  cbn [map]. apply NoDup_cons. split; [|now apply IH].
  intros Hin. apply Hx.
  apply list_elem_of_fmap in Hin as (y & -> & Hy).
  apply list_elem_of_fmap. exists y. split; [reflexivity|].
  apply list_elem_of_In. apply list_elem_of_In in Hy.
  now apply filter_In in Hy as [Hy _].
Qed.

Lemma get_prop_assign_absent (base c : object) (k : string) :
  k ∉ keys c -> get_prop (assign base c) k = get_prop base k.
Proof.
  revert base. induction c as [|[k1 v1] c IH]; intros base Hk; [reflexivity|].
  unfold assign. cbn [fold_left fst snd].
  change (fold_left _ c ?b) with (assign b c).
  cbn [keys map fst] in Hk. apply not_elem_of_cons in Hk as [Hne Hk].
  rewrite IH by exact Hk. rewrite get_prop_set_prop.
  destruct (String.eqb_spec k1 k); [congruence|reflexivity].
Qed.

(** X26: the uuids of the local list stay pairwise different through
    [deleteCalendar], and through [createCalendar] without a token when the
    input has no uuid and the generated uuid is not yet in the list. *)
Theorem local_uuids_stay_distinct
    (server : list request -> request -> reply) (uuidv4 : nat -> string)
    (c : object) (w : world) :
  NoDup (uuids (localCalendars (store w))) ->
  NoDup (uuids (localCalendars (store (snd (actions.deleteCalendar server c w)))))
  /\ (truthy (token (root w)) = false ->
      get_prop c "uuid" = None ->
      Some (JStr (uuidv4 (generated w))) ∉ uuids (localCalendars (store w)) ->
      NoDup (uuids (localCalendars
                      (store (snd (actions.createCalendar server uuidv4 c w)))))).
Proof.
  intros Hnd. split.
  - rewrite deleteCalendar_run.
    cbn [snd store mutations.removeLocalCalendar localCalendars].
    now apply NoDup_map_filter.
  - intros Htoken Hc Hfresh.
    rewrite (createCalendar_local_run server uuidv4 c w Htoken).
    cbn [snd store mutations.addLocalCalendar localCalendars].
    unfold uuids in *. rewrite map_app. cbn [map].
    assert (Hcopy :
      get_prop (assign [("uuid", JStr (uuidv4 (generated w)))] c) "uuid"
      = Some (JStr (uuidv4 (generated w)))).
    { rewrite get_prop_assign_absent by now apply get_prop_None_keys.
      cbn [get_prop]. now rewrite String.eqb_refl. }
    rewrite Hcopy. apply NoDup_app. repeat split; [exact Hnd| |apply NoDup_singleton].
    intros x Hx Hx'. apply list_elem_of_singleton in Hx'. subst x.
    now apply Hfresh.
Qed.

Lemma local_uuids_stay_distinct_witness :
  let w := fresh_world None [[("uuid", JStr "k")]; [("name", JStr "B")]] [] in
  NoDup (uuids (localCalendars
                  (store (snd (actions.createCalendar offline counter_uuid
                                 [("name", JStr "A")] w))))).
Proof.
  intros w.
  assert (Hnd : NoDup (uuids (localCalendars (store w)))).
  { apply NoDup_cons. split; [|apply NoDup_singleton].
    intros H. apply list_elem_of_singleton in H. discriminate H. }
  refine (proj2 (local_uuids_stay_distinct offline counter_uuid
                   [("name", JStr "A")] w Hnd) eq_refl eq_refl _).
  intros H. apply list_elem_of_In in H.
  destruct H as [H|[H|[]]]; discriminate H.
Defined.

(* ===================================================================== *)
(** * Further properties: the route table *)
(* ===================================================================== *)

Module RouteTableFacts.
Import Router.

(** Evaluates [lower] on the static segments of the table. *)
Ltac lower_static :=
  repeat match goal with
         | H : context [lower (String ?c ?s)] |- _ =>
             let v := eval vm_compute in (lower (String c s)) in
             change (lower (String c s)) with v in H
         | |- context [lower (String ?c ?s)] =>
             let v := eval vm_compute in (lower (String c s)) in
             change (lower (String c s)) with v
         end.

(** Evaluates the patterns of the table. *)
Ltac compile_static :=
  repeat match goal with
         | H : context [compile (path ?r)] |- _ =>
             let v := eval vm_compute in (compile (path r)) in
             change (compile (path r)) with v in H
         | |- context [compile (path ?r)] =>
             let v := eval vm_compute in (compile (path r)) in
             change (compile (path r)) with v
         end.

Ltac split_eqb :=
  repeat match goal with
         | H : (_ && _) = true |- _ => apply andb_true_iff in H as [? ?]
         | H : String.eqb _ _ = true |- _ => apply String.eqb_eq in H
         | H : negb (String.eqb _ _) = true |- _ =>
             apply negb_true_iff, String.eqb_neq in H
         end.

Lemma declared_routes_exclusive (p : string) (r1 r2 : route) :
  In r1 (removelast routes) -> In r2 (removelast routes) ->
  matches r1 p = true -> matches r2 p = true -> r1 = r2.
Proof.
  unfold matches. destruct (segments p) as [segs|]; [|discriminate].
  cbn [removelast routes]. intros H1 H2.
  repeat (destruct H1 as [<-|H1]); try destruct H1;
    repeat (destruct H2 as [<-|H2]); try destruct H2;
    try reflexivity; compile_static;
    destruct segs as [|a [|b [|c [|d rest]]]];
    cbn -[String.eqb lower]; intros Hm1 Hm2; try discriminate;
    lower_static; split_eqb; congruence.
Qed.

(** X27: no path matches two of the routes declared before the catch-all
    route, so a path that matches one of them resolves to it, wherever in
    the table the route stands. *)
Theorem declared_route_resolves (p : string) (r : route) :
  In r (removelast routes) -> matches r p = true ->
  resolve p = Some r
  /\ forall r', In r' (removelast routes) -> matches r' p = true -> r' = r.
Proof.
  intros Hr Hm. split.
  - assert (Hex : forall r', In r' (removelast routes) ->
                    matches r' p = true -> r' = r)
      by (intros r' Hr' Hm'; now apply (declared_routes_exclusive p)).
    unfold resolve, routes. cbn [find_first].
    repeat match goal with
           | |- context [if matches ?r' p then _ else _] =>
               destruct (matches r' p) eqn:?;
               [ f_equal; apply Hex; [cbn; tauto|assumption] | ]
           end.
    exfalso. cbn [removelast routes] in Hr.
    repeat (destruct Hr as [<-|Hr]; [congruence|]). destruct Hr.
  - intros r' Hr' Hm'. now apply (declared_routes_exclusive p).
Qed.

Lemma declared_route_resolves_witness :
  resolve "/C/abc/Edit/"
  = Some (Route "/c/:uuid/edit" "calendars.edit"
                (Lazy "../views/CalendarEdit.vue") []).
Proof.
  apply (declared_route_resolves "/C/abc/Edit/"); [cbn; tauto|reflexivity].
Defined.

(** X28: the paths behind the guest-only guard are the paths of one segment
    that reads login, registration or password-recovery without regard to
    case, with or without a slash at the end, and no other: a path
    resolves to a route guarded by [onlyGuests] exactly when it is one of
    these. *)
Theorem guarded_paths (p : string) (r : route) :
  resolve p = Some r ->
  guarded_by onlyGuests r = true
  <-> exists x, segments p = Some [x]
                /\ (lower x = "login" \/ lower x = "registration"
                    \/ lower x = "password-recovery").
Proof.
  unfold resolve, routes. cbn [find_first].
  repeat match goal with
         | |- context [if matches ?r' p then _ else _] =>
             destruct (matches r' p) eqn:?
         end;
    intros [= <-]; cbn [guarded_by beforeEnter existsb guard_eqb orb];
    unfold matches in *.
  all: destruct (segments p) as [segs|]; [|discriminate].
  all: compile_static.
  all: destruct segs as [|a [|b [|c [|d rest]]]];
    cbn -[String.eqb lower] in *; try discriminate; lower_static; split_eqb;
    try discriminate.
  all: split;
    [ intros Ht;
      first [ discriminate Ht | eexists; (split; [reflexivity|]); auto ]
    | intros (x & Heq & Hx); try discriminate Heq; injection Heq as <-;
      try reflexivity;
      destruct Hx as [Hx|[Hx|Hx]]; rewrite Hx in *; cbn in *;
      try discriminate; congruence ].
Qed.

Lemma guarded_paths_witness :
  guarded_by onlyGuests
    (Route "/password-recovery" "password-recovery"
           (Lazy "../views/auth/PasswordRecoveryView.vue") [onlyGuests])
  = true
  /\ exists x, segments "/Password-Recovery/" = Some [x]
               /\ (lower x = "login" \/ lower x = "registration"
                   \/ lower x = "password-recovery").
Proof.
  split; [reflexivity|].
  apply (guarded_paths "/Password-Recovery/"
           (Route "/password-recovery" "password-recovery"
                  (Lazy "../views/auth/PasswordRecoveryView.vue") [onlyGuests])
           eq_refl).
  reflexivity.
Defined.

End RouteTableFacts.
